(** * Lightcap: differential photometry of a frame sequence

    A shallow embedding of [lightcap.py] (class [Lightcurve]) and the
    properties of its four stages: catalog construction ([__init__]),
    aperture configuration ([set_target], [set_reference]), flux
    extraction ([read_apertures]) and the differential magnitude
    computation ([differential_magnitude]).

    Conventions of the embedding.
    - A method is a computation in the monad [M]: it threads the instance
      and the store of list objects, collects what the method prints, and
      either returns or raises.  As in Python, the effects made before an
      exception is raised stay in place.
    - [numpy.float64] values are idealised as real numbers: [x / y] is
      real division and [np.log10 x] is [ln x / ln 10].  Rounding, signed
      zeros, infinities and NaN are not modelled.
    - A [str] is the byte string of its UTF-8 encoding: the order of
      two strings by code point is the order of their bytes, and the
      length of a string is the number of its code points.
    - The per-reference flux lists are objects of a store, because the
      code shares them between [self.reference] and the magnitude list it
      builds from a shallow copy.  The other lists are never shared by
      the methods and are kept by value.
    - The file system, [astropy] and [photutils] are collaborators: they
      are the fields of an environment [env]. *)

From Stdlib Require Import Reals Lra Lia String Ascii List Sorted Permutation.
From stdpp Require Import base list.
Import ListNotations.

Local Open Scope string_scope.
Local Open Scope list_scope.

(** ** Python values that reach the methods as arguments *)

#[warnings="-register-all"]
Inductive pyobj : Type :=
| PNone
| PInt (n : Z)
| PFloat (x : R)
| PStr (s : string)
| PTuple (items : list pyobj)
| PList (items : list pyobj).

(** A [str] is held as its UTF-8 encoding.  A byte [10xxxxxx] continues
    a code point; every other byte starts one. *)
Definition is_continuation_byte (c : ascii) : bool :=
  match c with
  | Ascii _ _ _ _ _ _ b6 b7 => b7 && negb b6
  end.

(** [len(s)] for a [str]: the number of its code points. *)
Definition str_len (s : string) : nat :=
  length (filter (fun c => negb (is_continuation_byte c)) (list_ascii_of_string s)).

(** [len(x)]: defined on strings, tuples and lists; a [TypeError] on the
    other values. *)
Definition py_len (x : pyobj) : option nat :=
  match x with
  | PStr s => Some (str_len s)
  | PTuple l | PList l => Some (length l)
  | PNone | PInt _ | PFloat _ => None
  end.

(** [type(position) == tuple and len(position) == 2] *)
Definition is_tuple_of_len_2 (position : pyobj) : bool :=
  match position with
  | PTuple l => Nat.eqb (length l) 2
  | _ => false
  end.

(** [type(name) == str] *)
Definition is_str (name : pyobj) : bool :=
  match name with PStr _ => true | _ => false end.

(** [type(name) == str or type(name) == list] *)
Definition is_str_or_list (name : pyobj) : bool :=
  match name with PStr _ | PList _ => true | _ => false end.

(** [method == 'average'] *)
Definition is_average (method : pyobj) : bool :=
  match method with PStr s => String.eqb s "average" | _ => false end.

(** ** Exceptions and printed messages *)

Inductive exn : Type :=
| AttributeError      (* an attribute that was never assigned is read *)
| IndexError          (* a list or table index out of range *)
| TypeError           (* an operand of the wrong type *)
| KeyError            (* a header card that is absent *)
| UnboundLocalError   (* a local variable read before assignment *)
| ZeroDivisionError   (* [0 / 0] on Python integers *)
| FileNotFoundError   (* [os.chdir] on a directory that does not exist *)
| LibraryError        (* raised inside astropy or photutils *)
| StoreError.         (* not a Python exception: a reference to a list
                         object that the store does not hold; no method
                         creates one *)

Inductive message : Type :=
| MsgTargetPosition      (* line 72: Position must be provided as a tuple of len 2. *)
| MsgReferencePosition   (* line 104: Position(s) must be provided as a tuple or list of tuples of len 2. *)
| MsgNotConfigured       (* line 119: You must set a target and reference(s) before performing aperture photometry. *)
| MsgAlreadyPerformed    (* line 123: Aperture photometry has been performed already, ... Please update both target and reference ... *)
| MsgSingleReference.    (* line 154: Average is not computed. Using one reference. *)

(** ** Data of the instance *)

(** A FITS primary HDU: the header cards and the pixel array. *)
Record hdu : Type := mkHdu {
  header : list (string * pyobj);
  data : list (list R)
}.

(** A [CircularAperture]: the position(s) and the radius it was built
    from. *)
Record aperture : Type := mkAperture {
  positions : pyobj;
  r : pyobj
}.

(** An element of [self.reference] or [self.reference_magnitude]: a flux
    or magnitude value, or a reference to a list object of the store. *)
Inductive elem : Type :=
| EFloat (x : R)
| ERef (l : nat).

Record Lightcurve : Type := mkLightcurve {
  target : list R;
  target_pos : option pyobj;
  reference : list elem;
  reference_pos : option pyobj;
  fits_list : list string;
  hdu_list : list hdu;
  jd_axis : list pyobj;
  (* attributes that [__init__] does not assign: [None] is unset *)
  target_aperture : option aperture;
  target_name : option pyobj;
  number_of_references : option nat;
  reference_aperture : option aperture;
  reference_name : option pyobj;
  target_magnitude : option (list R);
  reference_magnitude : option (list elem)
}.

(** The instance together with the store of the list objects its
    attributes refer to. *)
Record state : Type := mkState {
  self : Lightcurve;
  heap : list (list R)
}.

(** The collaborators. *)
Record env : Type := mkEnv {
  (* [os.chdir d] succeeds *)
  os_chdir : string -> bool;
  (* [glob.glob pattern] after the change to directory [d], in the order
     the file system lists the matches *)
  glob_glob : string -> string -> list string;
  (* [fits.open(path)[0]] after the change to directory [d] *)
  fits_open : string -> string -> exn + hdu;
  (* [CircularAperture(position, r=radius)] raises *)
  CircularAperture_raises : pyobj -> pyobj -> option exn;
  (* [aperture_photometry(hdu, aperture)]: column 3 ([aperture_sum]) of
     the table, one row per position of the aperture *)
  aperture_photometry : hdu -> aperture -> exn + list R
}.

(** ** Attribute assignment *)

Definition set_self (f : Lightcurve -> Lightcurve) (s : state) : state :=
  mkState (f (self s)) (heap s).

Definition with_target v (o : Lightcurve) :=
  mkLightcurve v (target_pos o) (reference o) (reference_pos o) (fits_list o)
    (hdu_list o) (jd_axis o) (target_aperture o) (target_name o)
    (number_of_references o) (reference_aperture o) (reference_name o)
    (target_magnitude o) (reference_magnitude o).
Definition with_target_pos v (o : Lightcurve) :=
  mkLightcurve (target o) v (reference o) (reference_pos o) (fits_list o)
    (hdu_list o) (jd_axis o) (target_aperture o) (target_name o)
    (number_of_references o) (reference_aperture o) (reference_name o)
    (target_magnitude o) (reference_magnitude o).
Definition with_reference v (o : Lightcurve) :=
  mkLightcurve (target o) (target_pos o) v (reference_pos o) (fits_list o)
    (hdu_list o) (jd_axis o) (target_aperture o) (target_name o)
    (number_of_references o) (reference_aperture o) (reference_name o)
    (target_magnitude o) (reference_magnitude o).
Definition with_reference_pos v (o : Lightcurve) :=
  mkLightcurve (target o) (target_pos o) (reference o) v (fits_list o)
    (hdu_list o) (jd_axis o) (target_aperture o) (target_name o)
    (number_of_references o) (reference_aperture o) (reference_name o)
    (target_magnitude o) (reference_magnitude o).
Definition with_target_aperture v (o : Lightcurve) :=
  mkLightcurve (target o) (target_pos o) (reference o) (reference_pos o)
    (fits_list o) (hdu_list o) (jd_axis o) v (target_name o)
    (number_of_references o) (reference_aperture o) (reference_name o)
    (target_magnitude o) (reference_magnitude o).
Definition with_target_name v (o : Lightcurve) :=
  mkLightcurve (target o) (target_pos o) (reference o) (reference_pos o)
    (fits_list o) (hdu_list o) (jd_axis o) (target_aperture o) v
    (number_of_references o) (reference_aperture o) (reference_name o)
    (target_magnitude o) (reference_magnitude o).
Definition with_number_of_references v (o : Lightcurve) :=
  mkLightcurve (target o) (target_pos o) (reference o) (reference_pos o)
    (fits_list o) (hdu_list o) (jd_axis o) (target_aperture o)
    (target_name o) v (reference_aperture o) (reference_name o)
    (target_magnitude o) (reference_magnitude o).
Definition with_reference_aperture v (o : Lightcurve) :=
  mkLightcurve (target o) (target_pos o) (reference o) (reference_pos o)
    (fits_list o) (hdu_list o) (jd_axis o) (target_aperture o)
    (target_name o) (number_of_references o) v (reference_name o)
    (target_magnitude o) (reference_magnitude o).
Definition with_reference_name v (o : Lightcurve) :=
  mkLightcurve (target o) (target_pos o) (reference o) (reference_pos o)
    (fits_list o) (hdu_list o) (jd_axis o) (target_aperture o)
    (target_name o) (number_of_references o) (reference_aperture o) v
    (target_magnitude o) (reference_magnitude o).
Definition with_target_magnitude v (o : Lightcurve) :=
  mkLightcurve (target o) (target_pos o) (reference o) (reference_pos o)
    (fits_list o) (hdu_list o) (jd_axis o) (target_aperture o)
    (target_name o) (number_of_references o) (reference_aperture o)
    (reference_name o) v (reference_magnitude o).
Definition with_reference_magnitude v (o : Lightcurve) :=
  mkLightcurve (target o) (target_pos o) (reference o) (reference_pos o)
    (fits_list o) (hdu_list o) (jd_axis o) (target_aperture o)
    (target_name o) (number_of_references o) (reference_aperture o)
    (reference_name o) (target_magnitude o) v.

(** ** The monad of a method body *)

Inductive res (A : Type) : Type :=
| Ok (a : A)
| Exc (e : exn).
Arguments Ok {A} a.
Arguments Exc {A} e.

Definition M (A : Type) : Type := state -> state * list message * res A.

Definition ret {A} (a : A) : M A := fun s => (s, [], Ok a).

Definition bind {A B} (m : M A) (f : A -> M B) : M B :=
  fun s =>
    match m s with
    | (s1, o1, Ok a) =>
        match f a s1 with
        | (s2, o2, r2) => (s2, o1 ++ o2, r2)
        end
    | (s1, o1, Exc e) => (s1, o1, Exc e)
    end.

Definition raise {A} (e : exn) : M A := fun s => (s, [], Exc e).
Definition print (m : message) : M unit := fun s => (s, [m], Ok tt).
Definition gets {A} (f : state -> A) : M A := fun s => (s, [], Ok (f s)).
Definition modify (f : state -> state) : M unit := fun s => (f s, [], Ok tt).

(** A partial read: [None] raises [e]. *)
Definition orraise {A} (e : exn) (o : option A) : M A :=
  match o with Some a => ret a | None => raise e end.

(** A call into a collaborator. *)
Definition call {A} (c : exn + A) : M A :=
  match c with inl e => raise e | inr a => ret a end.

Declare Scope py_scope.
Delimit Scope py_scope with py.
Notation "x <- m ;; k" := (bind m (fun x => k))
  (at level 100, m at next level, right associativity) : py_scope.
Notation "m ;; k" := (bind m (fun _ => k))
  (at level 100, right associativity) : py_scope.
Local Open Scope py_scope.

(** [for x in xs: acc = body x acc], the locals of the loop in [acc]. *)
Fixpoint for_each {A B} (xs : list A) (body : A -> B -> M B) (acc : B) : M B :=
  match xs with
  | [] => ret acc
  | x :: xs' => acc' <- body x acc ;; for_each xs' body acc'
  end.

(** [self.attr] for an attribute that may be unset. *)
Definition getattr {A} (f : Lightcurve -> option A) : M A :=
  o <- gets (fun s => f (self s)) ;; orraise AttributeError o.

(** ** Numerics *)

Definition log10 (x : R) : R := (ln x / ln 10)%R.

(** [(-2.5)*np.log10(x/y)] *)
Definition diff_mag (x y : R) : R := (-2.5 * log10 (x / y))%R.

(** [sum(values)]: the builtin adds from the left, starting at [0]. *)
Definition py_sum (values : list R) : R := fold_left Rplus values 0%R.

(** ** Catalog construction: [Lightcurve.__init__] *)

(** ["*" in path] *)
Definition has_wildcard (path : string) : bool :=
  existsb (Ascii.eqb "*") (list_ascii_of_string path).

(** [posixpath.dirname]: the part of [p] up to its last ["/"], without
    the trailing separators unless it consists of separators only. *)
Fixpoint upto_last_sep (p : list ascii) : list ascii :=
  match p with
  | [] => []
  | c :: p' => if existsb (Ascii.eqb "/") p then c :: upto_last_sep p' else []
  end.

Fixpoint lstrip_sep (p : list ascii) : list ascii :=
  match p with
  | [] => []
  | c :: p' => if Ascii.eqb c "/" then lstrip_sep p' else p
  end.

Definition os_path_dirname (p : string) : string :=
  let head := upto_last_sep (list_ascii_of_string p) in
  if forallb (Ascii.eqb "/") head then string_of_list_ascii head
  else string_of_list_ascii (rev (lstrip_sep (rev head))).

(** [list.sort()] on a list of [str].  Python orders strings by code
    point, which is the byte order of their UTF-8 encoding, the order of
    [String.leb].  The sorted arrangement of a list of strings is unique,
    so the sorting algorithm is of no consequence; insertion is used. *)
Fixpoint insert_sorted (x : string) (l : list string) : list string :=
  match l with
  | [] => [x]
  | y :: l' => if String.leb x y then x :: l else y :: insert_sorted x l'
  end.

Definition list_sort (l : list string) : list string :=
  fold_right insert_sorted [] l.

(** [hdu.header["JD"]] *)
Fixpoint header_get (cards : list (string * pyobj)) (key : string) : option pyobj :=
  match cards with
  | [] => None
  | (k, v) :: cards' => if String.eqb k key then Some v else header_get cards' key
  end.

Section Methods.

Variable E : env.

(** The loop of lines 46-49 over the sorted paths; [d] is the working
    directory. *)
Fixpoint load_frames (d : string) (paths : list string)
    (hdus : list hdu) (jds : list pyobj) : exn + (list hdu * list pyobj) :=
  match paths with
  | [] => inr (hdus, jds)
  | i :: paths' =>
      match fits_open E d i with
      | inl e => inl e
      | inr h =>
          match header_get (header h) "JD" with
          | None => inl KeyError
          | Some jd => load_frames d paths' (hdus ++ [h]) (jds ++ [jd])
          end
      end
  end.

(** [Lightcurve(path)].  A constructor that raises yields no instance. *)
Definition init (path : string) : exn + state :=
  match
    (if has_wildcard path then inr path
     else
       (* line 31 reads [self.path], an attribute the class never
          assigns: the read raises before [os.path.join] is called *)
       inl AttributeError)
  with
  | inl e => inl e
  | inr fits_path =>
      let d := os_path_dirname fits_path in
      if os_chdir E d then
        let fits := list_sort (glob_glob E d fits_path) in
        match load_frames d fits [] [] with
        | inl e => inl e
        | inr (hdus, jds) =>
            inr (mkState
                   (mkLightcurve [] None [] None fits hdus jds
                      None None None None None None None)
                   [])
        end
      else inl FileNotFoundError
  end.

(** ** Aperture configuration *)

(** [CircularAperture(position, r=radius)] *)
Definition CircularAperture (position radius : pyobj) : M aperture :=
  match CircularAperture_raises E position radius with
  | Some e => raise e
  | None => ret (mkAperture position radius)
  end.

Definition set_target (position radius name : pyobj) : M unit :=
  if is_tuple_of_len_2 position then
    modify (set_self (with_target_pos (Some position))) ;;
    ap <- CircularAperture position radius ;;
    modify (set_self (with_target_aperture (Some ap))) ;;
    (if is_str name then modify (set_self (with_target_name (Some name)))
     else ret tt) ;;
    modify (set_self (with_target []))
  else
    print MsgTargetPosition.

(** [[[] for x in range(n)]]: [n] new, empty list objects. *)
Definition new_lists (n : nat) : M (list elem) :=
  fun s =>
    (mkState (self s) (heap s ++ replicate n []), [],
     Ok (map (fun k => ERef (length (heap s) + k)) (seq 0 n))).

(** [type(position) == list and len(position[0]) == 2] *)
Definition is_list_of_len_2_first (position : pyobj) : M bool :=
  match position with
  | PList items =>
      first <- orraise IndexError (items !! 0) ;;
      n <- orraise TypeError (py_len first) ;;
      ret (Nat.eqb n 2)
  | _ => ret false
  end.

Definition set_reference (position radius name : pyobj) : M unit :=
  if is_tuple_of_len_2 position then
    modify (set_self (with_number_of_references (Some 1))) ;;
    modify (set_self (with_reference_pos (Some position))) ;;
    ap <- CircularAperture position radius ;;
    modify (set_self (with_reference_aperture (Some ap))) ;;
    (if is_str_or_list name then modify (set_self (with_reference_name (Some name)))
     else ret tt) ;;
    modify (set_self (with_reference []))
  else
    c <- is_list_of_len_2_first position ;;
    if c : bool then
      n <- orraise TypeError (py_len position) ;;
      modify (set_self (with_number_of_references (Some n))) ;;
      modify (set_self (with_reference_pos (Some position))) ;;
      ap <- CircularAperture position radius ;;
      modify (set_self (with_reference_aperture (Some ap))) ;;
      refs <- new_lists n ;;
      modify (set_self (with_reference refs)) ;;
      (if is_str_or_list name then modify (set_self (with_reference_name (Some name)))
       else ret tt)
    else
      print MsgReferencePosition.

(** ** Flux extraction *)

(** [x.append(v)] for an element [x] of [self.reference]. *)
Definition append_to (x : elem) (v : M R) : M unit :=
  match x with
  | EFloat _ => raise AttributeError   (* a float has no [append] *)
  | ERef l =>
      v' <- v ;;
      row <- (o <- gets (fun s => heap s !! l) ;; orraise StoreError o) ;;
      modify (fun s => mkState (self s) (<[l := row ++ [v']]> (heap s)))
  end.

(** Lines 128-129: the target flux of the frame [i]. *)
Definition read_target_flux (i : hdu) : M unit :=
  ta <- getattr target_aperture ;;
  target_phot_table <- call (aperture_photometry E i ta) ;;
  v <- orraise IndexError (target_phot_table !! 0) ;;
  modify (set_self (fun o => with_target (target o ++ [v]) o)).

(** Line 136: [self.reference[r].append(phot_table[r][3])]. *)
Definition append_reference_flux (phot_table : list R) (r : nat) : M unit :=
  x <- (o <- gets (fun s => reference (self s) !! r) ;; orraise IndexError o) ;;
  append_to x (orraise IndexError (phot_table !! r)).

(** Lines 131-136: the reference flux of the frame [i]. *)
Definition read_reference_flux (i : hdu) : M unit :=
  ra <- getattr reference_aperture ;;
  phot_table <- call (aperture_photometry E i ra) ;;
  n <- getattr number_of_references ;;
  if Nat.eqb n 1 then
    v <- orraise IndexError (phot_table !! 0) ;;
    modify (set_self (fun o => with_reference (reference o ++ [EFloat v]) o))
  else if Nat.ltb 1 n then
    len <- gets (fun s => length (reference (self s))) ;;
    for_each (seq 0 len) (fun r _ => append_reference_flux phot_table r) tt
  else ret tt.

(** The body of the loop of lines 127-136 for the frame [i]. *)
Definition read_frame (i : hdu) : M unit :=
  read_target_flux i ;; read_reference_flux i.

Definition is_None {A} (o : option A) : bool :=
  match o with None => true | Some _ => false end.

Definition read_apertures : M unit :=
  tp <- gets (fun s => target_pos (self s)) ;;
  rp <- gets (fun s => reference_pos (self s)) ;;
  if is_None tp || is_None rp then
    print MsgNotConfigured
  else
    t <- gets (fun s => target (self s)) ;;
    match t with
    | _ :: _ => print MsgAlreadyPerformed
    | [] =>
        hdus <- gets (fun s => hdu_list (self s)) ;;
        for_each hdus (fun i _ => read_frame i) tt
    end.

(** ** Differential magnitudes *)

(** [x[i]] for an element [x] of [self.reference]. *)
Definition getitem (x : elem) (i : nat) : M R :=
  match x with
  | EFloat _ => raise IndexError   (* invalid index to scalar variable *)
  | ERef l =>
      row <- (o <- gets (fun s => heap s !! l) ;; orraise StoreError o) ;;
      orraise IndexError (row !! i)
  end.

(** [x[i] = v] for an element [x] of [reference_diff_mag]. *)
Definition setitem (x : elem) (i : nat) (v : R) : M unit :=
  match x with
  | EFloat _ => raise TypeError   (* a float does not support item assignment *)
  | ERef l =>
      row <- (o <- gets (fun s => heap s !! l) ;; orraise StoreError o) ;;
      if Nat.ltb i (length row) then
        modify (fun s => mkState (self s) (<[l := <[i := v]> row]> (heap s)))
      else raise IndexError
  end.

(** [self.reference[r]] *)
Definition reference_at (r : nat) : M elem :=
  o <- gets (fun s => reference (self s) !! r) ;; orraise IndexError o.

(** [self.target[i]] *)
Definition target_at (i : nat) : M R :=
  o <- gets (fun s => target (self s) !! i) ;; orraise IndexError o.

(** Lines 157-158, one frame of the single-reference loop.  When
    [self.reference[i]] is a list, line 157 divides a float by it, which
    numpy evaluates to an array stored in the local copy only, and line
    158 divides the list by itself, a [TypeError]. *)
Definition single_frame (i : nat) (acc : list R * list elem) : M (list R * list elem) :=
  let (target_diff_mag, reference_diff_mag) := acc in
  t <- target_at i ;;
  x <- reference_at i ;;
  match x with
  | EFloat x =>
      ret (<[i := diff_mag t x]> target_diff_mag,
           <[i := EFloat (diff_mag x x)]> reference_diff_mag)
  | ERef _ => raise TypeError
  end.

(** Lines 162-165: the values of the references in the frame [i]. *)
Definition frame_values (i : nat) : M (list R) :=
  len <- gets (fun s => length (reference (self s))) ;;
  for_each (seq 0 len)
    (fun r values =>
       x <- reference_at r ;;
       v <- getitem x i ;;
       ret (values ++ [v]))
    [].

(** Line 167: [sum(values)/len(values)]; on an empty list this is the
    integer division [0/0]. *)
Definition average (values : list R) : M R :=
  match values with
  | [] => raise ZeroDivisionError
  | _ :: _ => ret (py_sum values / INR (length values))%R
  end.

(** Line 171 for the reference [r]. *)
Definition write_reference_magnitude (reference_diff_mag : list elem)
    (i : nat) (avg_value : R) (r : nat) : M unit :=
  x <- reference_at r ;;
  v <- getitem x i ;;
  y <- orraise IndexError (reference_diff_mag !! r) ;;
  setitem y i (diff_mag v avg_value).

(** Lines 162-171, one frame of the multi-reference loop.  The local
    [reference_diff_mag] is a shallow copy of [self.reference]: its
    elements are the same list objects, and line 171 writes into them. *)
Definition multi_frame (reference_diff_mag : list elem) (i : nat)
    (target_diff_mag : list R) : M (list R) :=
  values <- frame_values i ;;
  avg_value <- average values ;;
  t <- target_at i ;;
  let target_diff_mag := <[i := diff_mag t avg_value]> target_diff_mag in
  len <- gets (fun s => length (reference (self s))) ;;
  for_each (seq 0 len)
    (fun r _ => write_reference_magnitude reference_diff_mag i avg_value r)
    tt ;;
  ret target_diff_mag.

(** A local variable that is assigned on some paths only. *)
Definition local {A} (v : option A) : M A := orraise UnboundLocalError v.

Definition differential_magnitude (method : pyobj) : M unit :=
  locals <-
    (if is_average method then
       target_diff_mag <- gets (fun s => target (self s)) ;;
       reference_diff_mag <- gets (fun s => reference (self s)) ;;
       n <- getattr number_of_references ;;
       acc <- (if Nat.eqb n 1 then
                 print MsgSingleReference ;;
                 len <- gets (fun s => length (target (self s))) ;;
                 for_each (seq 0 len) single_frame
                   (target_diff_mag, reference_diff_mag)
               else ret (target_diff_mag, reference_diff_mag)) ;;
       n <- getattr number_of_references ;;
       (if Nat.ltb 1 n then
          len <- gets (fun s => length (target (self s))) ;;
          td <- for_each (seq 0 len) (multi_frame (snd acc)) (fst acc) ;;
          ret (Some td, Some (snd acc))
        else ret (Some (fst acc), Some (snd acc)))
     else ret (None, None)) ;;
  target_diff_mag <- local (fst locals) ;;
  modify (set_self (with_target_magnitude (Some target_diff_mag))) ;;
  reference_diff_mag <- local (snd locals) ;;
  modify (set_self (with_reference_magnitude (Some reference_diff_mag))).

End Methods.

(** ** Callers *)

(** A call of one of the four methods. *)
Inductive method_call : Type :=
| SetTarget (position radius name : pyobj)
| SetReference (position radius name : pyobj)
| ReadApertures
| DifferentialMagnitude (method : pyobj).

Definition run (E : env) (c : method_call) : M unit :=
  match c with
  | SetTarget p r n => set_target E p r n
  | SetReference p r n => set_reference E p r n
  | ReadApertures => read_apertures E
  | DifferentialMagnitude m => differential_magnitude m
  end.

(** The state after a call, whether it returned or raised. *)
Definition after {A} (m : M A) (s : state) : state := fst (fst (m s)).

(** A caller that makes the calls in turn and goes on after one that
    raises. *)
Definition run_all (E : env) (cs : list method_call) (s : state) : state :=
  fold_left (fun s c => after (run E c) s) cs s.

(** [frameCount] *)
Definition frameCount (s : state) : nat := length (hdu_list (self s)).

(** ** The error taxonomy of the specification

    The code defines no exception class: it reports a rejected call by
    printing a message and returning.  [signalled] reads the outcome of a
    call in the specification's terms: the message of line 72 or 104 is
    [InvalidPositionError], that of line 119 [ConfigurationError], that
    of line 123 [ReExtractionError].  A Python exception that escapes the
    method is none of them. *)
Inductive spec_error : Type :=
| InvalidPositionError
| ConfigurationError
| ReExtractionError
| MissingMetadataError
| DomainError
| UnsupportedMethodError.

Definition signalled {A} (out : state * list message * res A) : option spec_error :=
  match out with
  | (_, [MsgTargetPosition], Ok _) => Some InvalidPositionError
  | (_, [MsgReferencePosition], Ok _) => Some InvalidPositionError
  | (_, [MsgNotConfigured], Ok _) => Some ConfigurationError
  | (_, [MsgAlreadyPerformed], Ok _) => Some ReExtractionError
  | _ => None
  end.

(** ** A test double of the collaborators

    Every directory exists, [glob] lists [files], every file opens to a
    frame with a [JD] card, every aperture is accepted, and the sum over
    an aperture at [(x, y)] is [x]. *)
Definition position_flux (p : pyobj) : R :=
  match p with
  | PTuple (PFloat x :: _) => x
  | _ => 1%R
  end.

Definition stub_photometry (_ : hdu) (ap : aperture) : exn + list R :=
  match positions ap with
  | PTuple _ => inr [position_flux (positions ap)]
  | PList items => inr (map position_flux items)
  | _ => inl LibraryError
  end.

Definition stub_env (files : list string) : env :=
  mkEnv (fun _ => true)
        (fun _ _ => files)
        (fun _ _ => inr (mkHdu [("JD", PFloat 2459061.5%R)] []))
        (fun _ _ => None)
        stub_photometry.

Definition xy (x y : R) : pyobj := PTuple [PFloat x; PFloat y].
Definition radius8 : pyobj := PInt 8.

(** ** Sessions used as examples *)

Definition frame_0 : hdu := mkHdu [("JD", PFloat 2459061.5%R)] [].

(** The instance that [Lightcurve("/d/*.fit")] builds over the files
    [files], and the instance over the single file [/d/f1.fit]. *)
Definition built_over (files : list string) : state :=
  mkState
    (mkLightcurve [] None [] None (list_sort files)
       (map (fun _ => frame_0) files)
       (map (fun _ => PFloat 2459061.5%R) files)
       None None None None None None None)
    [].

Definition one_frame_env : env := stub_env ["/d/f1.fit"].
Definition one_frame : state := built_over ["/d/f1.fit"].

Definition no_frame_env : env := stub_env [].
Definition no_frame : state := built_over [].

(** A target of flux 100 with one reference of flux 50, and with two
    references of flux 50 and 150. *)
Definition target_100 : method_call := SetTarget (xy 100 0) radius8 PNone.
Definition reference_50 : method_call := SetReference (xy 50 0) radius8 PNone.
Definition references_50_150 : method_call :=
  SetReference (PList [xy 50 0; xy 150 0]) radius8 PNone.

(** ** Predicates used by the statements *)

(** The frame catalog of an instance. *)
Definition catalog (s : state) : list string * list hdu * list pyobj :=
  (fits_list (self s), hdu_list (self s), jd_axis (self s)).

(** A computation keeps a relation between the state it starts in and the
    state it leaves, on return and on raise alike. *)
Definition keeps {A} (Rel : state -> state -> Prop) (m : M A) : Prop :=
  forall s, Rel s (after m s).

Definition same_catalog (s s' : state) : Prop := catalog s' = catalog s.

Definition string_le (a b : string) : Prop := String.leb a b = true.

(** What [read_apertures] leaves alone apart from the flux: the
    configuration attributes. *)
Definition same_configuration (s s' : state) : Prop :=
  target_pos (self s') = target_pos (self s)
  /\ reference_pos (self s') = reference_pos (self s)
  /\ number_of_references (self s') = number_of_references (self s)
  /\ hdu_list (self s') = hdu_list (self s)
  /\ length (target (self s)) <= length (target (self s')).

(** The arithmetic mean of a list of values. *)
Definition mean (xs : list R) : R :=
  (fold_right Rplus 0 xs / INR (length xs))%R.

(** Column [i] of the flux series [F], one series per reference. *)
Definition frame_column (F : list (list R)) (i : nat) : list R :=
  map (fun row => nth i row 0%R) F.

(** The list objects [locs] of the store [h] hold the series [F]. *)
Definition holds (h : list (list R)) (locs : list nat) (F : list (list R)) : Prop :=
  Forall2 (fun l row => h !! l = Some row) locs F.

(** The mean of the references in the frame [i], as line 167 computes
    it, and as the arithmetic mean. *)
Definition frame_average (F : list (list R)) (i : nat) : R :=
  (py_sum (frame_column F i) / INR (length (frame_column F i)))%R.

Definition frame_mean (F : list (list R)) (i : nat) : R :=
  mean (frame_column F i).

(** A series in which the frames before [k] hold magnitudes against the
    mean of the references [F] and the frames from [k] on still hold the
    flux: the content of a list while the loop of line 161 is at frame
    [k]. *)
Definition magnitudes_upto (F : list (list R)) (k : nat) (xs : list R) : list R :=
  imap (fun i x => if decide (i < k) then diff_mag x (frame_average F i) else x) xs.

(** A configuration with the references [locs], before extraction: what
    [set_reference] leaves for a list of positions, one new and empty
    list object per position. *)
Definition configured_references (s : state) (locs : list nat) : Prop :=
  number_of_references (self s) = Some (length locs)
  /\ reference (self s) = map ERef locs
  /\ NoDup locs
  /\ forall l, In l locs -> heap s !! l = Some [].

(** ** Further collaborators and relations

    Test doubles that make a collaborator fail, and the relations of the
    properties beyond the magnitudes. *)

(** A frame without pixels, on which the photometry fails. *)
Definition frame_empty : hdu := mkHdu [("JD", PFloat 2459061.5%R)] [].
Definition frame_sky : hdu := mkHdu [("JD", PFloat 2459061.5%R)] [[1%R]].

Definition strict_photometry (h : hdu) (ap : aperture) : exn + list R :=
  match data h with
  | [] => inl LibraryError
  | _ :: _ => stub_photometry h ap
  end.

(** The working directory cannot be changed to the empty path, the files
    whose name starts with [bad] have no pixels, the files whose name
    starts with [raw] have no [JD] card, and an aperture needs a radius
    that is a positive integer or a float. *)
Definition starts_with (prefix s : string) : bool :=
  String.eqb (String.substring 0 (String.length prefix) s) prefix.

Definition strict_open (path : string) : exn + hdu :=
  if starts_with "raw" path then inr (mkHdu [] [[1%R]])
  else if starts_with "bad" path then inr frame_empty
  else inr frame_sky.

Definition strict_radius (radius : pyobj) : option exn :=
  match radius with
  | PInt z => if Z.ltb 0 z then None else Some LibraryError
  | PFloat _ => None
  | _ => Some LibraryError
  end.

Definition strict_env (files : list string) : env :=
  mkEnv (fun d => negb (String.eqb d ""))
        (fun _ _ => files)
        (fun _ path => strict_open path)
        (fun _ radius => strict_radius radius)
        strict_photometry.

(** A catalog of two files, the second without pixels, and the instance
    that [__init__] builds over it. *)
Definition two_frame_env : env := strict_env ["a1.fit"; "bad2.fit"].

Definition two_frame : state :=
  mkState
    (mkLightcurve [] None [] None ["a1.fit"; "bad2.fit"]
       [frame_sky; frame_empty]
       [PFloat 2459061.5%R; PFloat 2459061.5%R]
       None None None None None None None)
    [].

Definition is_set_target (c : method_call) : bool :=
  match c with SetTarget _ _ _ => true | _ => false end.

Definition is_set_reference (c : method_call) : bool :=
  match c with SetReference _ _ _ => true | _ => false end.

Definition is_differential_magnitude (c : method_call) : bool :=
  match c with DifferentialMagnitude _ => true | _ => false end.

Definition same_target_pos (s s' : state) : Prop :=
  target_pos (self s') = target_pos (self s).

Definition same_reference_pos (s s' : state) : Prop :=
  reference_pos (self s') = reference_pos (self s).

Definition same_target_magnitude (s s' : state) : Prop :=
  target_magnitude (self s') = target_magnitude (self s).

(** The first row of the photometry table of the frame [h] for the
    aperture [ap] is [v]. *)
Definition photometry_of (E : env) (ap : aperture) (h : hdu) (v : R) : Prop :=
  exists table, aperture_photometry E h ap = inr table /\ table !! 0 = Some v.

(** * Properties *)

(** ** The monad *)

Section Keeps.

Variable Rel : state -> state -> Prop.
Hypothesis Rel_refl : forall s, Rel s s.
Hypothesis Rel_trans : forall s1 s2 s3, Rel s1 s2 -> Rel s2 s3 -> Rel s1 s3.

Lemma keeps_ret {A} (a : A) : keeps Rel (ret a).
Proof. intros s. apply Rel_refl. Qed.

Lemma keeps_raise {A} (e : exn) : keeps Rel (@raise A e).
Proof. intros s. apply Rel_refl. Qed.

Lemma keeps_print (m : message) : keeps Rel (print m).
Proof. intros s. apply Rel_refl. Qed.

Lemma keeps_gets {A} (f : state -> A) : keeps Rel (gets f).
Proof. intros s. apply Rel_refl. Qed.

Lemma keeps_orraise {A} (e : exn) (o : option A) : keeps Rel (orraise e o).
Proof. destruct o; [apply keeps_ret | apply keeps_raise]. Qed.

Lemma keeps_call {A} (c : exn + A) : keeps Rel (call c).
Proof. destruct c; [apply keeps_raise | apply keeps_ret]. Qed.

Lemma keeps_modify (f : state -> state) :
  (forall s, Rel s (f s)) -> keeps Rel (modify f).
Proof. intros H s. apply H. Qed.

Lemma keeps_bind {A B} (m : M A) (f : A -> M B) :
  keeps Rel m -> (forall a, keeps Rel (f a)) -> keeps Rel (bind m f).
Proof.
  intros Hm Hf s. specialize (Hm s). unfold after, bind in *.
  destruct (m s) as [[s1 o1] [a | e]]; simpl in *; [| exact Hm].
  specialize (Hf a s1). unfold after in Hf.
  destruct (f a s1) as [[s2 o2] r2]; simpl in *.
  eapply Rel_trans; eassumption.
Qed.

Lemma keeps_for_each {A B} (xs : list A) (body : A -> B -> M B) :
  (forall x acc, keeps Rel (body x acc)) ->
  forall acc, keeps Rel (for_each xs body acc).
Proof.
  intros Hbody. induction xs as [| x xs IH]; intros acc; simpl.
  - apply keeps_ret.
  - apply keeps_bind; [apply Hbody | exact IH].
Qed.

Lemma keeps_getattr {A} (f : Lightcurve -> option A) : keeps Rel (getattr f).
Proof.
  unfold getattr. apply keeps_bind; [apply keeps_gets |].
  intros o. apply keeps_orraise.
Qed.

Lemma keeps_run_all (E : env) :
  (forall c, keeps Rel (run E c)) ->
  forall cs s, Rel s (run_all E cs s).
Proof.
  intros Hrun cs. unfold run_all.
  induction cs as [| c cs IH]; intros s; simpl.
  - apply Rel_refl.
  - eapply Rel_trans; [apply (Hrun c s) | apply IH].
Qed.

End Keeps.

(** Splits a method body along its binds, loops and branches, leaving the
    assignments; [Hr] and [Ht] are reflexivity and transitivity of the
    relation. *)
Ltac keeps_body Hr Ht :=
  repeat
    match goal with
    | |- keeps _ (if ?b then _ else _) => destruct b
    | |- keeps _ (match ?x with _ => _ end) => destruct x
    | |- keeps _ (ret _) => apply (keeps_ret _ Hr)
    | |- keeps _ (raise _) => apply (keeps_raise _ Hr)
    | |- keeps _ (print _) => apply (keeps_print _ Hr)
    | |- keeps _ (gets _) => apply (keeps_gets _ Hr)
    | |- keeps _ (orraise _ _) => apply (keeps_orraise _ Hr)
    | |- keeps _ (local _) => apply (keeps_orraise _ Hr)
    | |- keeps _ (call _) => apply (keeps_call _ Hr)
    | |- keeps _ (getattr _) => apply (keeps_getattr _ Hr Ht)
    | |- keeps _ (bind _ _) => apply (keeps_bind _ Ht); [| intros ?]
    | |- keeps _ (for_each _ _ _) => apply (keeps_for_each _ Hr Ht); intros ? ?
    | |- keeps _ (modify _) => apply keeps_modify; intros ?
    end.

(** ** The frame catalog *)

Lemma same_catalog_refl (s : state) : same_catalog s s.
Proof. reflexivity. Qed.

Lemma same_catalog_trans (s1 s2 s3 : state) :
  same_catalog s1 s2 -> same_catalog s2 s3 -> same_catalog s1 s3.
Proof. unfold same_catalog. congruence. Qed.

(** No method assigns [fits_list], [hdu_list] or [jd_axis]. *)
Lemma run_keeps_catalog (E : env) (c : method_call) :
  keeps same_catalog (run E c).
Proof.
  pose proof same_catalog_refl as Hr. pose proof same_catalog_trans as Ht.
  destruct c as [p r n | p r n | | m]; simpl.
  - unfold set_target, CircularAperture. keeps_body Hr Ht; reflexivity.
  - unfold set_reference, CircularAperture, is_list_of_len_2_first.
    keeps_body Hr Ht; try reflexivity.
    unfold new_lists. intros s. reflexivity.
  - unfold read_apertures, read_frame, read_target_flux, read_reference_flux,
      append_reference_flux, append_to.
    keeps_body Hr Ht; reflexivity.
  - unfold differential_magnitude.
    keeps_body Hr Ht; try reflexivity.
    all: unfold single_frame, multi_frame, frame_values, average,
           write_reference_magnitude, reference_at, target_at, getitem, setitem.
    all: keeps_body Hr Ht; try reflexivity.
Qed.

Lemma ascii_compare_lt_trans (a b c : ascii) :
  Ascii.compare a b = Lt -> Ascii.compare b c = Lt -> Ascii.compare a c = Lt.
Proof. unfold Ascii.compare. rewrite !N.compare_lt_iff. lia. Qed.

Lemma string_compare_lt_trans (a b c : string) :
  String.compare a b = Lt -> String.compare b c = Lt -> String.compare a c = Lt.
Proof.
  revert b c. induction a as [| x a IH]; intros [| y b] [| z c]; simpl; try easy.
  destruct (Ascii.compare x y) eqn:Hxy; try easy.
  - apply Ascii.compare_eq_iff in Hxy. subst y.
    destruct (Ascii.compare x z); try easy. apply IH.
  - destruct (Ascii.compare y z) eqn:Hyz; try easy.
    + apply Ascii.compare_eq_iff in Hyz. subst z. now rewrite Hxy.
    + now rewrite (ascii_compare_lt_trans x y z Hxy Hyz).
Qed.

Lemma string_le_cases (a b : string) :
  string_le a b <-> String.compare a b = Lt \/ a = b.
Proof.
  unfold string_le, String.leb. split.
  - destruct (String.compare a b) eqn:H; try easy.
    + right. now apply String.compare_eq_iff.
    + now left.
  - intros [H | ->].
    + now rewrite H.
    + destruct (String.compare b b) eqn:H; try easy.
      pose proof (String.compare_antisym b b) as Ha.
      rewrite H in Ha. discriminate Ha.
Qed.

Lemma string_le_trans (a b c : string) :
  string_le a b -> string_le b c -> string_le a c.
Proof.
  rewrite !string_le_cases. intros [Hab | ->] [Hbc | ->]; auto.
  left. eapply string_compare_lt_trans; eassumption.
Qed.

Lemma insert_sorted_perm (x : string) (l : list string) :
  Permutation (x :: l) (insert_sorted x l).
Proof.
  induction l as [| y l IH]; simpl; [reflexivity |].
  destruct (String.leb x y); [reflexivity |].
  rewrite perm_swap. now apply perm_skip.
Qed.

Lemma list_sort_perm (l : list string) : Permutation l (list_sort l).
Proof.
  induction l as [| x l IH]; simpl; [reflexivity |].
  rewrite <- insert_sorted_perm. now apply perm_skip.
Qed.

Lemma insert_sorted_sorted (x : string) (l : list string) :
  StronglySorted string_le l -> StronglySorted string_le (insert_sorted x l).
Proof.
  induction 1 as [| y l Hl IH Hy]; simpl.
  - constructor; constructor.
  - destruct (String.leb x y) eqn:Hxy.
    + constructor; [now constructor |].
      constructor; [exact Hxy |].
      eapply Forall_impl; [exact Hy |].
      intros z Hz. now apply (string_le_trans x y z).
    + constructor; [exact IH |].
      rewrite <- insert_sorted_perm. constructor; [| exact Hy].
      destruct (String.leb_total x y) as [H | H]; [congruence | exact H].
Qed.

Lemma list_sort_sorted (l : list string) : StronglySorted string_le (list_sort l).
Proof.
  induction l as [| x l IH]; simpl.
  - constructor.
  - now apply insert_sorted_sorted.
Qed.

(** The frames are opened in the order of the paths. *)
Lemma load_frames_aligned (E : env) (d : string) (paths : list string) :
  forall seen hdus jds hdus' jds',
    Forall2 (fun p h => fits_open E d p = inr h) seen hdus ->
    load_frames E d paths hdus jds = inr (hdus', jds') ->
    Forall2 (fun p h => fits_open E d p = inr h) (seen ++ paths) hdus'.
Proof.
  induction paths as [| i paths IH]; intros seen hdus jds hdus' jds' Hseen; simpl.
  - intros [= <- <-]. now rewrite app_nil_r.
  - destruct (fits_open E d i) as [e | h] eqn:Hopen; [discriminate |].
    destruct (header_get (header h) "JD") as [jd |]; [| discriminate].
    intros Hload.
    replace (seen ++ i :: paths) with ((seen ++ [i]) ++ paths)
      by (now rewrite <- app_assoc).
    eapply IH; [| exact Hload].
    apply Forall2_app; [exact Hseen | now repeat constructor].
Qed.

Lemma init_inv (E : env) (path : string) (s : state) :
  init E path = inr s ->
  has_wildcard path = true /\
  fits_list (self s) = list_sort (glob_glob E (os_path_dirname path) path) /\
  exists jds,
    load_frames E (os_path_dirname path) (fits_list (self s)) [] []
    = inr (hdu_list (self s), jds).
Proof.
  unfold init. destruct (has_wildcard path); [| discriminate].
  destruct (os_chdir E (os_path_dirname path)); [| discriminate].
  destruct (load_frames E _ _ [] []) as [e | [hdus jds]] eqn:Hload; [discriminate |].
  intros [= <-]. simpl. split; [reflexivity |]. split; [reflexivity |].
  exists jds. exact Hload.
Qed.

(** C9.  The catalog lists the discovered files in ascending order of
    their paths as strings, the frames are those files in that order, and
    no sequence of method calls changes the catalog.  In particular the
    files [f2], [f10], [f1] of a directory are listed as [f1], [f10],
    [f2]. *)
Theorem catalog_sorted_and_fixed (E : env) (path : string) (s : state) :
  init E path = inr s ->
  let found := glob_glob E (os_path_dirname path) path in
  StronglySorted string_le (fits_list (self s))
  /\ Permutation found (fits_list (self s))
  /\ Forall2 (fun p h => fits_open E (os_path_dirname path) p = inr h)
       (fits_list (self s)) (hdu_list (self s))
  /\ (forall cs, catalog (run_all E cs s) = catalog s)
  /\ (found = ["/d/f2"; "/d/f10"; "/d/f1"] ->
      fits_list (self s) = ["/d/f1"; "/d/f10"; "/d/f2"]).
Proof.
  intros Hinit found. apply init_inv in Hinit as (_ & Hfits & jds & Hload).
  fold found in Hfits. rewrite Hfits. repeat split.
  - apply list_sort_sorted.
  - apply list_sort_perm.
  - rewrite Hfits in Hload.
    apply (load_frames_aligned E _ _ [] [] [] _ jds); [constructor | exact Hload].
  - intros cs.
    apply (keeps_run_all same_catalog same_catalog_refl same_catalog_trans E
             (run_keeps_catalog E)).
  - intros ->. reflexivity.
Qed.

Lemma catalog_sorted_and_fixed_witness :
  exists s,
    init (stub_env ["/d/f2"; "/d/f10"; "/d/f1"]) "/d/f*" = inr s
    /\ fits_list (self s) = ["/d/f1"; "/d/f10"; "/d/f2"]
    /\ forall cs,
         catalog (run_all (stub_env ["/d/f2"; "/d/f10"; "/d/f1"]) cs s) = catalog s.
Proof.
  eexists. split; [reflexivity |].
  pose proof (catalog_sorted_and_fixed
                (stub_env ["/d/f2"; "/d/f10"; "/d/f1"]) "/d/f*" _ eq_refl)
    as (_ & _ & _ & Hfixed & Horder).
  split; [apply Horder; reflexivity | exact Hfixed].
Defined.

(** ** Construction from a path without a wildcard *)

Lemma init_without_wildcard (E : env) (path : string) :
  has_wildcard path = false -> init E path = inl AttributeError.
Proof. intros H. unfold init. now rewrite H. Qed.

(** C8.  [Lightcurve("/data/lights")]: the path has no wildcard, the
    directory exists and holds a frame, and the constructor raises
    [AttributeError] instead of listing the directory. *)
Theorem init_directory_raises :
  has_wildcard "/data/lights" = false
  /\ init (stub_env ["/data/lights/a.fit"]) "/data/lights" = inl AttributeError
  /\ forall E, init E "/data/lights" = inl AttributeError.
Proof.
  split; [reflexivity |]. split; [reflexivity |].
  intros E. now apply init_without_wildcard.
Qed.

(** ** Rejected calls *)

(** C10.  [set_reference([], radius, name)]: the test of line 96 reads
    [position[0]] of the empty list and raises [IndexError]; this is none
    of the reported validation errors, and the instance and the store are
    as before the call. *)
Theorem set_reference_empty_list_raises (E : env) (radius name : pyobj) (s : state) :
  set_reference E (PList []) radius name s = (s, [], Exc IndexError)
  /\ signalled (set_reference E (PList []) radius name s) = None.
Proof. split; reflexivity. Qed.

Lemma differential_magnitude_other_method (method : pyobj) (s : state) :
  is_average method = false ->
  differential_magnitude method s = (s, [], Exc UnboundLocalError).
Proof. intros H. unfold differential_magnitude. now rewrite H. Qed.

(** C3.  [differential_magnitude("median")]: no branch assigns the local
    [target_diff_mag], line 174 reads it and raises [UnboundLocalError].
    No magnitude attribute is assigned, and the exception is not a
    reported error of the method. *)
Theorem differential_magnitude_median_raises (s : state) :
  differential_magnitude (PStr "median") s = (s, [], Exc UnboundLocalError)
  /\ signalled (differential_magnitude (PStr "median") s) = None.
Proof.
  rewrite differential_magnitude_other_method by reflexivity.
  split; reflexivity.
Qed.

(** ** Running a body step by step *)

Lemma bind_ok {A B} (m : M A) (f : A -> M B) s s' o b :
  bind m f s = (s', o, Ok b) ->
  exists s1 o1 a o2,
    m s = (s1, o1, Ok a) /\ f a s1 = (s', o2, Ok b) /\ o = o1 ++ o2.
Proof.
  unfold bind. destruct (m s) as [[s1 o1] [a | e]]; [| discriminate].
  destruct (f a s1) as [[s2 o2] r2] eqn:Hf. intros [= <- <- ->].
  exists s1, o1, a, o2. auto.
Qed.

Lemma bind_eq {A B} (m : M A) (f : A -> M B) s s1 o1 a :
  m s = (s1, o1, Ok a) ->
  bind m f s = (let '(s2, o2, r2) := f a s1 in (s2, o1 ++ o2, r2)).
Proof. unfold bind. intros ->. reflexivity. Qed.

(** Forward steps: a bind whose first computation is known. *)
Lemma bind_step {A B} (m : M A) (k : A -> M B) s s1 a :
  m s = (s1, [], Ok a) -> bind m k s = k a s1.
Proof.
  intros H. rewrite (bind_eq _ _ _ _ _ _ H).
  destruct (k a s1) as [[s2 o2] r2]. reflexivity.
Qed.

Lemma bind_gets {A B} (f : state -> A) (k : A -> M B) s :
  bind (gets f) k s = k (f s) s.
Proof. now apply bind_step. Qed.

Lemma bind_ret {A B} (a : A) (k : A -> M B) s : bind (ret a) k s = k a s.
Proof. now apply bind_step. Qed.

Lemma bind_modify {B} (f : state -> state) (k : unit -> M B) s :
  bind (modify f) k s = k tt (f s).
Proof. now apply bind_step. Qed.

Lemma bind_getattr {A B} (f : Lightcurve -> option A) (k : A -> M B) s a :
  f (self s) = Some a -> bind (getattr f) k s = k a s.
Proof.
  intros H. apply bind_step. unfold getattr. rewrite bind_gets, H. reflexivity.
Qed.

Lemma bind_orraise {A B} (e : exn) (o : option A) (k : A -> M B) s a :
  o = Some a -> bind (orraise e o) k s = k a s.
Proof. intros ->. now apply bind_step. Qed.

Lemma bind_assoc {A B C} (m : M A) (f : A -> M B) (g : B -> M C) s :
  bind (bind m f) g s = bind m (fun x => bind (f x) g) s.
Proof.
  unfold bind. destruct (m s) as [[s1 o1] [a | e]]; [| reflexivity].
  destruct (f a s1) as [[s2 o2] [b | e]]; [| reflexivity].
  destruct (g b s2) as [[s3 o3] r3]. now rewrite app_assoc.
Qed.

Lemma bind_print {B} (m : message) (k : unit -> M B) s :
  bind (print m) k s = (let '(s2, o2, r2) := k tt s in (s2, m :: o2, r2)).
Proof. reflexivity. Qed.

(** A loop that returns has run its body on every element in turn. *)
Lemma for_each_ok_inv {A B} (I : list A -> B -> state -> Prop)
    (body : A -> B -> M B) :
  (forall pre x acc s s' o acc',
      I pre acc s -> body x acc s = (s', o, Ok acc') -> I (pre ++ [x]) acc' s') ->
  forall xs pre acc s s' o acc',
    I pre acc s -> for_each xs body acc s = (s', o, Ok acc') ->
    I (pre ++ xs) acc' s'.
Proof.
  intros Hbody. induction xs as [| x xs IH]; intros pre acc s s' o acc' HI; simpl.
  - intros [= <- _ <-]. now rewrite app_nil_r.
  - intros (s1 & o1 & a & o2 & Hx & Hxs & _)%bind_ok.
    replace (pre ++ x :: xs) with ((pre ++ [x]) ++ xs) by (now rewrite <- app_assoc).
    eapply IH; [| exact Hxs]. eapply Hbody; eassumption.
Qed.

(** A loop over [range] whose body returns silently under an invariant
    returns silently, with the invariant at the end. *)
Lemma for_each_seq_total {B} (I : nat -> B -> state -> Prop)
    (body : nat -> B -> M B) :
  forall n a,
    (forall k acc s, a <= k < a + n -> I k acc s ->
       exists acc' s', body k acc s = (s', [], Ok acc') /\ I (S k) acc' s') ->
    forall acc s, I a acc s ->
      exists acc' s', for_each (seq a n) body acc s = (s', [], Ok acc')
                      /\ I (a + n) acc' s'.
Proof.
  induction n as [| n IH]; intros a Hbody acc s HI; simpl.
  - exists acc, s. rewrite Nat.add_0_r. auto.
  - destruct (Hbody a acc s) as (acc1 & s1 & Hrun & HI1); [lia | exact HI |].
    destruct (IH (S a)) with (acc := acc1) (s := s1) as (acc2 & s2 & Hrest & HI2).
    + intros k acc0 s0 Hk. apply Hbody. lia.
    + exact HI1.
    + exists acc2, s2. rewrite (bind_eq _ _ _ _ _ _ Hrun), Hrest.
      replace (a + S n) with (S a + n) by lia. auto.
Qed.

(** ** Reconfiguration *)

Lemma new_list_refs (base n : nat) :
  map (fun k => ERef (base + k)) (seq 0 n) = map ERef (seq base n).
Proof.
  rewrite <- (map_map (Nat.add base) ERef). f_equal.
  pose proof (fmap_add_seq base 0 n) as H. rewrite Nat.add_0_r in H. exact H.
Qed.

(** [set_reference] on a list of positions whose first has two
    coordinates. *)
Lemma set_reference_list_run (E : env) (s : state)
    (first : pyobj) (rest : list pyobj) (radius name : pyobj) :
  CircularAperture_raises E (PList (first :: rest)) radius = None ->
  py_len first = Some 2 ->
  exists s',
    set_reference E (PList (first :: rest)) radius name s = (s', [], Ok tt)
    /\ number_of_references (self s') = Some (S (length rest))
    /\ reference (self s')
       = map ERef (seq (length (heap s)) (S (length rest)))
    /\ heap s' = heap s ++ replicate (S (length rest)) []
    /\ target (self s') = target (self s).
Proof.
  intros Hap Hlen.
  assert (Hcond : is_list_of_len_2_first (PList (first :: rest)) s
                  = (s, [], Ok true)).
  { unfold is_list_of_len_2_first. cbn [lookup list_lookup].
    unfold bind, orraise, ret. now rewrite Hlen. }
  unfold set_reference, CircularAperture.
  cbn [is_tuple_of_len_2]. rewrite Hap, (bind_eq _ _ _ _ _ _ Hcond).
  destruct (is_str_or_list name); eexists; (split; [reflexivity |]);
    cbn -[seq replicate]; rewrite new_list_refs; auto.
Qed.

(** C4, as amended.  A call of [set_target] with a position of two
    coordinates that the aperture constructor accepts empties the target
    flux series and leaves the reference flux series as they are; a call
    of [set_reference] with such a position, or with a list of positions
    whose first has two coordinates, replaces the reference flux series by
    an empty series (one new empty list object per listed position) and
    leaves the target flux series as it is. *)
Theorem reconfiguration_resets_own_role (E : env) (s : state)
    (position radius name : pyobj) :
  CircularAperture_raises E position radius = None ->
  (is_tuple_of_len_2 position = true ->
     (exists s',
        set_target E position radius name s = (s', [], Ok tt)
        /\ target (self s') = []
        /\ reference (self s') = reference (self s)
        /\ heap s' = heap s)
     /\ (exists s',
        set_reference E position radius name s = (s', [], Ok tt)
        /\ reference (self s') = []
        /\ number_of_references (self s') = Some 1
        /\ target (self s') = target (self s)
        /\ heap s' = heap s))
  /\ (forall first rest,
        position = PList (first :: rest) -> py_len first = Some 2 ->
        exists s',
          set_reference E position radius name s = (s', [], Ok tt)
          /\ number_of_references (self s') = Some (S (length rest))
          /\ reference (self s')
             = map ERef (seq (length (heap s)) (S (length rest)))
          /\ heap s' = heap s ++ replicate (S (length rest)) []
          /\ target (self s') = target (self s)).
Proof.
  intros Hap. split.
  - intros Htuple. split.
    + unfold set_target, CircularAperture. rewrite Htuple, Hap.
      destruct (is_str name); eexists; (split; [reflexivity |]); auto.
    + unfold set_reference, CircularAperture. rewrite Htuple, Hap.
      destruct (is_str_or_list name); eexists; (split; [reflexivity |]); auto.
  - intros first rest -> Hlen. now apply set_reference_list_run.
Qed.

(** Evaluates a session on explicit data; the real numbers stay as they
    are written. *)
Ltac evaluate :=
  cbv -[IZR Rdiv Rmult Rplus Rminus Ropp Rinv INR ln log10 diff_mag py_sum];
  reflexivity.

Lemma init_one_frame : init one_frame_env "/d/*.fit" = inr one_frame.
Proof. reflexivity. Qed.

Lemma init_no_frame : init no_frame_env "/d/*.fit" = inr no_frame.
Proof. reflexivity. Qed.

(** C4, as stated, fails: after an extraction over one frame, a call of
    [set_target] leaves the reference flux series populated, and a call
    of [set_reference] leaves the target flux series populated. *)
Lemma reconfiguration_keeps_other_role_flux :
  exists s1 s2 s3 s4 s4',
    run one_frame_env target_100 one_frame = (s1, [], Ok tt)
    /\ run one_frame_env reference_50 s1 = (s2, [], Ok tt)
    /\ read_apertures one_frame_env s2 = (s3, [], Ok tt)
    /\ target (self s3) = [100%R] /\ reference (self s3) = [EFloat 50]
    /\ run one_frame_env target_100 s3 = (s4, [], Ok tt)
    /\ reference (self s4) = [EFloat 50] /\ reference (self s4) <> []
    /\ run one_frame_env reference_50 s3 = (s4', [], Ok tt)
    /\ target (self s4') = [100%R] /\ target (self s4') <> [].
Proof.
  do 5 eexists.
  repeat (split; [evaluate || discriminate |]). discriminate.
Qed.

Lemma reconfiguration_resets_own_role_witness :
  let s3 := run_all one_frame_env [target_100; reference_50; ReadApertures] one_frame in
  reference (self s3) = [EFloat 50]
  /\ exists s4,
       set_target one_frame_env (xy 100 0) radius8 PNone s3 = (s4, [], Ok tt)
       /\ target (self s4) = []
       /\ reference (self s4) = [EFloat 50].
Proof.
  intros s3. split; [evaluate |].
  destruct (reconfiguration_resets_own_role one_frame_env s3
              (xy 100 0) radius8 PNone eq_refl) as [Htuple _].
  destruct (Htuple eq_refl) as [(s4 & Hrun & Ht & Hr & _) _].
  exists s4. split; [exact Hrun |]. split; [exact Ht |].
  rewrite Hr. evaluate.
Defined.

(** ** Extraction *)

(** C5.  With one frame in the catalog: the target and one reference are
    set and the flux is extracted; the target is set again, and the next
    extraction runs, because line 121 tests the target flux only.  It
    appends to the reference flux of the first extraction: the reference
    series has two values for the one frame. *)
Theorem re_extraction_doubles_reference_flux :
  exists s1 s2 s3 s4 s5,
    init one_frame_env "/d/*.fit" = inr one_frame
    /\ run one_frame_env target_100 one_frame = (s1, [], Ok tt)
    /\ run one_frame_env reference_50 s1 = (s2, [], Ok tt)
    /\ read_apertures one_frame_env s2 = (s3, [], Ok tt)
    /\ run one_frame_env target_100 s3 = (s4, [], Ok tt)
    /\ read_apertures one_frame_env s4 = (s5, [], Ok tt)
    /\ frameCount s5 = 1
    /\ target (self s5) = [100%R]
    /\ reference (self s5) = [EFloat 50; EFloat 50].
Proof.
  do 5 eexists. repeat (split; [evaluate |]). evaluate.
Qed.

(** C6, as stated, fails: over a catalog without frames the extraction
    completes and leaves the target flux empty, so that a second
    extraction is not refused: it runs again and prints nothing. *)
Lemma second_extraction_of_no_frame_runs :
  exists s1 s2 s3,
    init no_frame_env "/d/*.fit" = inr no_frame
    /\ run no_frame_env target_100 no_frame = (s1, [], Ok tt)
    /\ run no_frame_env reference_50 s1 = (s2, [], Ok tt)
    /\ read_apertures no_frame_env s2 = (s3, [], Ok tt)
    /\ read_apertures no_frame_env s3 = (s3, [], Ok tt)
    /\ signalled (read_apertures no_frame_env s3) <> Some ReExtractionError.
Proof.
  do 3 eexists. repeat (split; [evaluate |]). discriminate.
Qed.


(** What a step that returns has done. *)
Lemma gets_ok {A} (f : state -> A) s s' o a :
  gets f s = (s', o, Ok a) -> s' = s /\ o = [] /\ a = f s.
Proof. intros [= <- <- <-]. auto. Qed.

Lemma orraise_ok {A} (e : exn) (x : option A) s s' o a :
  orraise e x s = (s', o, Ok a) -> s' = s /\ o = [] /\ x = Some a.
Proof. destruct x; intros [= <- <- <-]. auto. Qed.

Lemma call_ok {A} (c : exn + A) s s' o a :
  call c s = (s', o, Ok a) -> s' = s /\ o = [] /\ c = inr a.
Proof. destruct c; intros [= <- <- <-]. auto. Qed.

Lemma getattr_ok {A} (f : Lightcurve -> option A) s s' o a :
  getattr f s = (s', o, Ok a) -> s' = s /\ o = [] /\ f (self s) = Some a.
Proof.
  unfold getattr. intros (s1 & o1 & x & o2 & (-> & -> & ->)%gets_ok & H & ->)%bind_ok.
  apply orraise_ok in H as (-> & -> & ->). auto.
Qed.

Lemma modify_ok (f : state -> state) s s' o (u : unit) :
  modify f s = (s', o, Ok u) -> s' = f s /\ o = [].
Proof. intros [= <- <-]. auto. Qed.

Lemma ret_ok {A} (x : A) s s' o a :
  ret x s = (s', o, Ok a) -> s' = s /\ o = [] /\ a = x.
Proof. intros [= <- <- <-]. auto. Qed.

(** Inverts the steps of a body that returned, first to last. *)
Ltac invert_ok :=
  repeat
    match goal with
    | H : bind _ _ _ = (_, _, Ok _) |- _ =>
        let s := fresh "s" in let o := fresh "o" in
        let a := fresh "a" in let o' := fresh "o" in
        let H1 := fresh "Hstep" in let Ho := fresh "Hout" in
        apply bind_ok in H as (s & o & a & o' & H1 & H & Ho)
    | H : gets _ _ = (_, _, Ok _) |- _ => apply gets_ok in H as (-> & -> & ->)
    | H : getattr _ _ = (_, _, Ok _) |- _ => apply getattr_ok in H as (-> & -> & H)
    | H : orraise _ _ _ = (_, _, Ok _) |- _ => apply orraise_ok in H as (-> & -> & H)
    | H : call _ _ = (_, _, Ok _) |- _ => apply call_ok in H as (-> & -> & H)
    | H : modify _ _ = (_, _, Ok _) |- _ => apply modify_ok in H as (-> & ->)
    | H : ret _ _ = (_, _, Ok _) |- _ => apply ret_ok in H as (-> & -> & ->)
    | H : raise _ _ = (_, _, Ok _) |- _ => discriminate H
    | H : @eq (list message) _ ([] ++ _) |- _ => cbn [app] in H
    | H : @eq (list message) ?o _ |- _ => is_var o; subst o
    | H : @eq (list message) _ ?o |- _ => is_var o; subst o
    | H : @eq (list message) [] (_ ++ _) |- _ =>
        symmetry in H; apply app_eq_nil in H as [? ?]
    | H : @eq (list message) [] [] |- _ => clear H
    end.

Lemma same_configuration_refl (s : state) : same_configuration s s.
Proof. unfold same_configuration. auto. Qed.

Lemma same_configuration_trans (s1 s2 s3 : state) :
  same_configuration s1 s2 -> same_configuration s2 s3 -> same_configuration s1 s3.
Proof. unfold same_configuration. intuition (congruence || lia). Qed.

(** The extraction of a frame assigns the flux attributes only, and
    takes nothing from the target flux. *)
Lemma read_frame_keeps_configuration (E : env) (i : hdu) :
  keeps same_configuration (read_frame E i).
Proof.
  pose proof same_configuration_refl as Hr.
  pose proof same_configuration_trans as Ht.
  unfold read_frame, read_target_flux, read_reference_flux,
    append_reference_flux, append_to.
  keeps_body Hr Ht.
  all: unfold same_configuration; cbn; rewrite ?length_app; auto with lia.
Qed.

Lemma read_target_flux_ok (E : env) (i : hdu) s s' o :
  read_target_flux E i s = (s', o, Ok tt) ->
  exists v, s' = set_self (with_target (target (self s) ++ [v])) s.
Proof. unfold read_target_flux. intros H. invert_ok. eauto. Qed.

(** A frame whose extraction returns has added a value to the target
    flux. *)
Lemma read_frame_grows (E : env) (i : hdu) s s' o :
  read_frame E i s = (s', o, Ok tt) ->
  length (target (self s)) < length (target (self s')).
Proof.
  unfold read_frame. intros (s1 & o1 & [] & o2 & Ht & Hr & _)%bind_ok.
  apply read_target_flux_ok in Ht as (v & ->).
  pose proof same_configuration_refl as Hrefl.
  pose proof same_configuration_trans as Htrans.
  assert (Hk : keeps same_configuration (read_reference_flux E i)).
  { unfold read_reference_flux, append_reference_flux, append_to.
    keeps_body Hrefl Htrans.
    all: unfold same_configuration; cbn; auto with lia. }
  specialize (Hk (set_self (with_target (target (self s) ++ [v])) s)).
  unfold after in Hk. rewrite Hr in Hk. destruct Hk as (_ & _ & _ & _ & Hlen).
  cbn in Hlen. rewrite length_app in Hlen. cbn in Hlen. lia.
Qed.

(** The ways in which [read_apertures] returns without a message: the
    target and the reference are set, the target flux is empty, and the
    loop over the frames returned. *)
Lemma read_apertures_silent (E : env) s s1 :
  read_apertures E s = (s1, [], Ok tt) ->
  is_None (target_pos (self s)) = false
  /\ is_None (reference_pos (self s)) = false
  /\ target (self s) = []
  /\ exists o,
       for_each (hdu_list (self s)) (fun i _ => read_frame E i) tt s
       = (s1, o, Ok tt).
Proof.
  unfold read_apertures. intros H. invert_ok.
  destruct (is_None (target_pos (self s))); [discriminate H |].
  destruct (is_None (reference_pos (self s))); [discriminate H |].
  cbn [orb] in H. invert_ok.
  destruct (target (self s)); [| discriminate H].
  invert_ok. eauto 6.
Qed.

(** C6, as amended.  Over a catalog of at least one frame, once
    [read_apertures] has run the extraction, a second call prints the
    notice of line 123 and returns, which is how the code reports the
    re-extraction; the instance and the store, and with them both flux
    series, are as before the call. *)
Theorem second_extraction_is_refused (E : env) (s s1 : state) :
  hdu_list (self s) <> [] ->
  read_apertures E s = (s1, [], Ok tt) ->
  read_apertures E s1 = (s1, [MsgAlreadyPerformed], Ok tt)
  /\ signalled (read_apertures E s1) = Some ReExtractionError.
Proof.
  intros Hframes (Htp & Hrp & Htarget & o & Hloop)%read_apertures_silent.
  destruct (hdu_list (self s)) as [| i hdus]; [congruence |]. clear Hframes.
  simpl in Hloop. apply bind_ok in Hloop as (sa & oa & [] & ob & Hi & Hrest & _).
  pose proof (read_frame_grows _ _ _ _ _ Hi) as Hgrow.
  pose proof (read_frame_keeps_configuration E i s) as Hconf.
  unfold after in Hconf. rewrite Hi in Hconf. cbn in Hconf.
  pose proof (keeps_for_each same_configuration same_configuration_refl
                same_configuration_trans hdus (fun i _ => read_frame E i)
                (fun i _ => read_frame_keeps_configuration E i) tt sa) as Hall.
  unfold after in Hall. rewrite Hrest in Hall. cbn in Hall.
  destruct (same_configuration_trans _ _ _ Hconf Hall) as (Htp1 & Hrp1 & _).
  assert (Hlen : 0 < length (target (self s1))).
  { destruct Hall as (_ & _ & _ & _ & Hall). lia. }
  assert (Hrun : read_apertures E s1 = (s1, [MsgAlreadyPerformed], Ok tt)).
  { unfold read_apertures, bind, gets. rewrite Htp1, Hrp1, Htp, Hrp. cbn.
    destruct (target (self s1)); [cbn in Hlen; lia | reflexivity]. }
  rewrite Hrun. split; reflexivity.
Qed.

Lemma second_extraction_is_refused_witness :
  let s2 := run_all one_frame_env [target_100; reference_50] one_frame in
  exists s3,
    hdu_list (self s2) <> []
    /\ read_apertures one_frame_env s2 = (s3, [], Ok tt)
    /\ read_apertures one_frame_env s3 = (s3, [MsgAlreadyPerformed], Ok tt).
Proof.
  intros s2. eexists. split; [discriminate |].
  assert (H : read_apertures one_frame_env s2 = (_, [], Ok tt)) by evaluate.
  split; [exact H |].
  apply (second_extraction_is_refused one_frame_env s2 _); [discriminate | exact H].
Defined.

(** ** Magnitudes against a single reference *)

Lemma diff_mag_diag (x : R) : x <> 0%R -> diff_mag x x = 0%R.
Proof.
  intros Hx. unfold diff_mag, log10.
  rewrite Rdiv_diag by exact Hx. rewrite ln_1. unfold Rdiv. ring.
Qed.

(** The loop of lines 156-158 reads the flux and fills the two local
    copies, frame by frame. *)
Lemma single_reference_loop (s : state) (ts rs : list R) :
  target (self s) = ts ->
  reference (self s) = map EFloat rs ->
  length ts <= length rs ->
  forall td rd, length td = length ts -> length rd = length rs ->
  exists td' rd',
    for_each (seq 0 (length ts)) single_frame (td, rd) s = (s, [], Ok (td', rd'))
    /\ length td' = length ts /\ length rd' = length rs
    /\ forall i t x, ts !! i = Some t -> rs !! i = Some x ->
         td' !! i = Some (diff_mag t x)
         /\ rd' !! i = Some (EFloat (diff_mag x x)).
Proof.
  intros Hts Hrs Hlen td rd Htd Hrd.
  pose (I := fun (k : nat) (acc : list R * list elem) (s' : state) =>
               s' = s /\ length (fst acc) = length ts /\ length (snd acc) = length rs
               /\ forall i t x, i < k -> ts !! i = Some t -> rs !! i = Some x ->
                    fst acc !! i = Some (diff_mag t x)
                    /\ snd acc !! i = Some (EFloat (diff_mag x x))).
  destruct (for_each_seq_total I single_frame (length ts) 0) with (acc := (td, rd)) (s := s)
    as ([td' rd'] & s' & Hrun & -> & Htd' & Hrd' & Hall).
  - intros k [tdk rdk] sk [_ Hk] (-> & Htdk & Hrdk & Hdone). cbn in Hk, Htdk, Hrdk, Hdone.
    destruct (lookup_lt_is_Some_2 ts k) as [t Ht]; [lia |].
    destruct (lookup_lt_is_Some_2 rs k) as [x Hx]; [lia |].
    exists (<[k := diff_mag t x]> tdk, <[k := EFloat (diff_mag x x)]> rdk), s.
    split.
    + unfold single_frame, target_at, reference_at, bind, gets, orraise, ret.
      rewrite Hts, Ht, Hrs, list_lookup_fmap, Hx. reflexivity.
    + unfold I. cbn. rewrite !length_insert.
      split; [reflexivity |]. split; [exact Htdk |]. split; [exact Hrdk |].
      intros i ti xi Hi Hti Hxi.
      destruct (decide (i = k)) as [-> | Hne].
      * rewrite !list_lookup_insert_eq by lia. split; congruence.
      * rewrite !list_lookup_insert_ne by congruence.
        apply (Hdone i ti xi); [lia | |]; assumption.
  - unfold I. cbn. split; [reflexivity |]. split; [exact Htd |]. split; [exact Hrd |].
    intros i ti xi Hi. lia.
  - exists td', rd'. cbn in Htd', Hrd', Hall.
    split; [exact Hrun |]. split; [exact Htd' |]. split; [exact Hrd' |].
    intros i t x Ht Hx. apply (Hall i t x); [| assumption | assumption].
    apply lookup_lt_Some in Ht. cbn. lia.
Qed.

(** C7.  With one reference and target and reference flux series of
    strictly positive values, a reference value for every frame,
    [compute("average")] returns after the notice of line 154, with, for
    every frame [i], the reference magnitude [0] and the target magnitude
    [-2.5 * log10(target[i] / reference[i])]. *)
Theorem single_reference_magnitudes (s : state) (ts rs : list R) :
  number_of_references (self s) = Some 1 ->
  target (self s) = ts ->
  reference (self s) = map EFloat rs ->
  length ts <= length rs ->
  Forall (Rlt 0) ts ->
  Forall (Rlt 0) rs ->
  exists s' tm rm,
    differential_magnitude (PStr "average") s = (s', [MsgSingleReference], Ok tt)
    /\ target_magnitude (self s') = Some tm
    /\ reference_magnitude (self s') = Some rm
    /\ length tm = length ts /\ length rm = length rs
    /\ forall i t x, ts !! i = Some t -> rs !! i = Some x ->
         tm !! i = Some (-2.5 * (ln (t / x) / ln 10))%R
         /\ rm !! i = Some (EFloat 0).
Proof.
  intros Hn Hts Hrs Hlen Hpos_t Hpos_r.
  destruct (single_reference_loop s ts rs Hts Hrs Hlen ts (map EFloat rs))
    as (tm & rm & Hloop & Htm & Hrm & Hall); [reflexivity | now rewrite length_map |].
  eexists _, tm, rm. split; [| split; [| split; [| split; [| split]]]].
  - unfold differential_magnitude. cbn [is_average String.eqb Ascii.eqb Bool.eqb].
    rewrite (bind_eq _ _ s s [MsgSingleReference] (Some tm, Some rm)).
    + unfold local. rewrite (bind_orraise _ _ _ _ tm eq_refl), bind_modify.
      rewrite (bind_orraise _ _ _ _ rm eq_refl). reflexivity.
    + rewrite !bind_gets, (bind_getattr _ _ _ 1 Hn). cbn [Nat.eqb].
      rewrite bind_assoc, bind_print. cbv beta.
      rewrite bind_assoc, bind_gets, Hts, Hrs, (bind_step _ _ _ _ _ Hloop).
      rewrite (bind_getattr _ _ _ 1 Hn). reflexivity.
  - reflexivity.
  - reflexivity.
  - exact Htm.
  - exact Hrm.
  - intros i t x Ht Hx. destruct (Hall i t x Ht Hx) as [Hti Hri]. split.
    + exact Hti.
    + rewrite Hri, diff_mag_diag; [reflexivity |].
      rewrite Forall_forall in Hpos_r.
      assert (0 < x)%R by (apply Hpos_r; now apply list_elem_of_lookup_2 in Hx).
      lra.
Qed.

Lemma single_reference_magnitudes_witness :
  let s3 := run_all one_frame_env [target_100; reference_50; ReadApertures] one_frame in
  exists s' tm rm,
    differential_magnitude (PStr "average") s3 = (s', [MsgSingleReference], Ok tt)
    /\ target_magnitude (self s') = Some tm
    /\ reference_magnitude (self s') = Some rm
    /\ tm !! 0 = Some (-2.5 * (ln (100 / 50) / ln 10))%R
    /\ rm !! 0 = Some (EFloat 0).
Proof.
  intros s3.
  destruct (single_reference_magnitudes s3 [100%R] [50%R])
    as (s' & tm & rm & Hrun & Htm & Hrm & _ & _ & Hall).
  - evaluate.
  - evaluate.
  - evaluate.
  - cbn. lia.
  - repeat constructor. lra.
  - repeat constructor. lra.
  - exists s', tm, rm. repeat (split; [assumption |]).
    apply (Hall 0 100%R 50%R); reflexivity.
Defined.

(** ** Extraction with several references *)

(** The partial counterpart of [for_each_seq_total]. *)
Lemma for_each_seq_ok_inv {B} (I : nat -> B -> state -> Prop)
    (body : nat -> B -> M B) :
  forall n a,
    (forall k acc s s' o acc', a <= k < a + n ->
       I k acc s -> body k acc s = (s', o, Ok acc') -> I (S k) acc' s') ->
    forall acc s s' o acc',
      I a acc s -> for_each (seq a n) body acc s = (s', o, Ok acc') ->
      I (a + n) acc' s'.
Proof.
  induction n as [| n IH]; intros a Hbody acc s s' o acc' HI; simpl.
  - intros [= <- _ <-]. now rewrite Nat.add_0_r.
  - intros (s1 & o1 & acc1 & o2 & Hk & Hrest & _)%bind_ok.
    replace (a + S n) with (S a + n) by lia.
    eapply IH; [| | exact Hrest].
    + intros k acc0 s0 s0' o0 acc0' Hk0. apply Hbody. lia.
    + eapply Hbody; [| exact HI | exact Hk]. lia.
Qed.

Lemma holds_lookup (h : list (list R)) (locs : list nat) (F : list (list R)) r l :
  holds h locs F -> locs !! r = Some l ->
  exists row, F !! r = Some row /\ h !! l = Some row.
Proof.
  intros HF Hl. destruct (Forall2_lookup_l _ _ _ _ _ HF Hl) as (row & Hrow & Hh).
  eauto.
Qed.

Lemma holds_intro (h : list (list R)) (locs : list nat) :
  (forall r l, locs !! r = Some l -> is_Some (h !! l)) ->
  exists F, holds h locs F.
Proof.
  induction locs as [| l locs IH]; intros Hall.
  - exists []. constructor.
  - destruct (Hall 0 l eq_refl) as [row Hrow].
    destruct IH as [F HF]; [intros r l' Hl'; apply (Hall (S r) l' Hl') |].
    exists (row :: F). now constructor.
Qed.

Lemma holds_length (h : list (list R)) (locs : list nat) (F : list (list R)) :
  holds h locs F -> length F = length locs.
Proof. intros HF. symmetry. exact (Forall2_length _ _ _ HF). Qed.

(** Line 136 on a store whose objects [locs] are the references: the row
    of the reference [r] gets one more value, the other rows stay. *)
Lemma append_reference_flux_ok (phot_table : list R) (locs : list nat) r s s' o :
  reference (self s) = map ERef locs ->
  append_reference_flux phot_table r s = (s', o, Ok tt) ->
  exists l row v,
    locs !! r = Some l /\ heap s !! l = Some row
    /\ s' = mkState (self s) (<[l := row ++ [v]]> (heap s)).
Proof.
  intros Href. unfold append_reference_flux. intros H. invert_ok.
  rewrite Href, list_lookup_fmap in Hstep.
  destruct (locs !! r) as [l |] eqn:Hl; [| discriminate Hstep].
  injection Hstep as <-. unfold append_to in H. invert_ok.
  exists l, a0, a. auto.
Qed.

(** Lines 131-136 with several references: every row gets one value. *)
Lemma read_reference_flux_multi (E : env) (i : hdu) (locs : list nat) k s s' o :
  number_of_references (self s) = Some (length locs) ->
  1 < length locs ->
  reference (self s) = map ERef locs ->
  NoDup locs ->
  (forall r l, locs !! r = Some l ->
     exists row, heap s !! l = Some row /\ length row = k) ->
  read_reference_flux E i s = (s', o, Ok tt) ->
  self s' = self s
  /\ forall r l, locs !! r = Some l ->
       exists row, heap s' !! l = Some row /\ length row = S k.
Proof.
  intros Hn HR Href Hnodup Hrows. unfold read_reference_flux. intros H. invert_ok.
  rewrite Hn in Hstep1. injection Hstep1 as <-.
  destruct (Nat.eqb_spec (length locs) 1) as [Heq | _]; [lia |].
  destruct (Nat.ltb_spec 1 (length locs)) as [_ | Hle]; [| lia].
  invert_ok. rewrite Href, length_map in H.
  pose (I := fun (r : nat) (_ : unit) (s'' : state) =>
               self s'' = self s
               /\ forall r' l, locs !! r' = Some l ->
                    exists row, heap s'' !! l = Some row
                                /\ length row = if decide (r' < r) then S k else k).
  assert (HI : I (0 + length locs) tt s').
  { eapply (for_each_seq_ok_inv I) with (acc := tt); [| | exact H].
    - intros r [] s1 s2 o1 [] Hr [Hself Hinv] Hbody.
      apply append_reference_flux_ok with (locs := locs) in Hbody
        as (l & row & v & Hl & Hrow & ->); [| now rewrite Hself].
      split; [exact Hself |]. intros r' l' Hl'. cbn [heap].
      destruct (Hinv r' l' Hl') as (row' & Hrow' & Hlen').
      destruct (decide (l' = l)) as [-> | Hne].
      + assert (r' = r) as -> by (eapply NoDup_lookup; eassumption).
        exists (row ++ [v]). split.
        * apply list_lookup_insert_eq. eapply lookup_lt_Some; eassumption.
        * rewrite length_app. cbn. rewrite Hrow in Hrow'. injection Hrow' as <-.
          repeat case_decide; lia.
      + exists row'. split.
        * rewrite list_lookup_insert_ne by congruence. exact Hrow'.
        * assert (r' <> r) by congruence. repeat case_decide; lia.
    - split; [reflexivity |]. intros r' l Hl.
      destruct (Hrows r' l Hl) as (row & Hrow & Hlen).
      exists row. split; [exact Hrow |]. case_decide; [lia | exact Hlen]. }
  destruct HI as [Hself Hinv]. split; [exact Hself |].
  intros r l Hl. destruct (Hinv r l Hl) as (row & Hrow & Hlen).
  exists row. split; [exact Hrow |].
  apply lookup_lt_Some in Hl. case_decide; [exact Hlen | lia].
Qed.

(** The state after an extraction with several references: the target
    flux and the row of every reference have one value per frame. *)
Lemma read_apertures_multi (E : env) (locs : list nat) (s0 s1 : state) :
  configured_references s0 locs ->
  1 < length locs ->
  read_apertures E s0 = (s1, [], Ok tt) ->
  number_of_references (self s1) = Some (length locs)
  /\ reference (self s1) = map ERef locs
  /\ hdu_list (self s1) = hdu_list (self s0)
  /\ length (target (self s1)) = frameCount s1
  /\ exists F, holds (heap s1) locs F
               /\ Forall (fun row => length row = frameCount s1) F.
Proof.
  intros (Hn & Href & Hnodup & Hempty) HR
         (_ & _ & Htarget & o & Hloop)%read_apertures_silent.
  pose (I := fun (pre : list hdu) (_ : unit) (s : state) =>
               number_of_references (self s) = Some (length locs)
               /\ reference (self s) = map ERef locs
               /\ hdu_list (self s) = hdu_list (self s0)
               /\ length (target (self s)) = length pre
               /\ forall r l, locs !! r = Some l ->
                    exists row, heap s !! l = Some row /\ length row = length pre).
  assert (HI : I ([] ++ hdu_list (self s0)) tt s1).
  { eapply (for_each_ok_inv I) with (acc := tt); [| | exact Hloop].
    - intros pre i [] s s' o' [] (Hn' & Href' & Hhdus & Hlen & Hrows) Hbody.
      unfold read_frame in Hbody.
      apply bind_ok in Hbody as (sa & oa & [] & ob & Ht & Hr & _).
      apply read_target_flux_ok in Ht as (v & ->).
      eapply read_reference_flux_multi in Hr as [Hself Hrows']; try eassumption.
      unfold I. rewrite !Hself. cbn. rewrite !length_app. cbn.
      repeat split; try assumption; try lia.
      intros r l Hl. destruct (Hrows' r l Hl) as (row & Hrow & Hrowlen).
      exists row. split; [exact Hrow | lia].
    - unfold I. rewrite Htarget. repeat split; try assumption; try reflexivity.
      intros r l Hl. exists []. split; [| reflexivity].
      apply Hempty. apply list_elem_of_In. eapply list_elem_of_lookup_2; eassumption. }
  destruct HI as (Hn1 & Href1 & Hhdus & Hlen & Hrows). cbn [app] in Hlen, Hrows.
  unfold frameCount. rewrite Hhdus.
  repeat split; try assumption.
  destruct (holds_intro (heap s1) locs) as [F HF].
  { intros r l Hl. destruct (Hrows r l Hl) as (row & Hrow & _). eauto. }
  exists F. split; [exact HF |].
  apply Forall_lookup. intros r row Hr.
  destruct (lookup_lt_is_Some_2 locs r) as [l Hl].
  { rewrite <- (holds_length _ _ _ HF). eapply lookup_lt_Some; eassumption. }
  destruct (holds_lookup _ _ _ _ _ HF Hl) as (row' & Hrow' & Hh).
  destruct (Hrows r l Hl) as (row'' & Hrow'' & Hlen'').
  congruence.
Qed.

(** ** Magnitudes against several references *)

Lemma py_sum_from (xs : list R) (a : R) :
  fold_left Rplus xs a = (a + fold_right Rplus 0 xs)%R.
Proof.
  revert a. induction xs as [| x xs IH]; intros a; simpl.
  - ring.
  - rewrite IH. ring.
Qed.

Lemma frame_average_mean (F : list (list R)) (i : nat) :
  frame_average F i = frame_mean F i.
Proof.
  unfold frame_average, frame_mean, mean, py_sum.
  rewrite py_sum_from. f_equal. ring.
Qed.

Lemma magnitudes_upto_lookup (F : list (list R)) k xs i :
  magnitudes_upto F k xs !! i
  = (fun x => if decide (i < k) then diff_mag x (frame_average F i) else x)
      <$> xs !! i.
Proof. unfold magnitudes_upto. apply list_lookup_imap. Qed.

Lemma magnitudes_upto_length (F : list (list R)) k xs :
  length (magnitudes_upto F k xs) = length xs.
Proof. unfold magnitudes_upto. apply length_imap. Qed.

Lemma magnitudes_upto_0 (F : list (list R)) xs : magnitudes_upto F 0 xs = xs.
Proof.
  apply list_eq. intros i. rewrite magnitudes_upto_lookup.
  destruct (xs !! i); cbn; [| reflexivity]. case_decide; [lia | reflexivity].
Qed.

Lemma map_magnitudes_upto_0 (F M : list (list R)) :
  map (magnitudes_upto F 0) M = M.
Proof.
  induction M as [| row M IH]; simpl; [reflexivity |].
  now rewrite magnitudes_upto_0, IH.
Qed.

(** The assignment of lines 168 and 171 at the frame [k]. *)
Lemma magnitudes_upto_S (F : list (list R)) k xs x :
  xs !! k = Some x ->
  <[k := diff_mag x (frame_average F k)]> (magnitudes_upto F k xs)
  = magnitudes_upto F (S k) xs.
Proof.
  intros Hx. apply list_eq. intros i.
  destruct (decide (i = k)) as [-> | Hne].
  - rewrite list_lookup_insert_eq
      by (rewrite magnitudes_upto_length; eapply lookup_lt_Some; eassumption).
    rewrite magnitudes_upto_lookup, Hx. cbn. case_decide; [reflexivity | lia].
  - rewrite list_lookup_insert_ne by congruence.
    rewrite !magnitudes_upto_lookup. destruct (xs !! i); cbn; [| reflexivity].
    repeat case_decide; try reflexivity; lia.
Qed.

Lemma magnitudes_upto_nth_flux (F : list (list R)) k xs i :
  k <= i -> nth i (magnitudes_upto F k xs) 0%R = nth i xs 0%R.
Proof.
  intros Hi. rewrite !nth_lookup, magnitudes_upto_lookup.
  destruct (xs !! i); cbn; [| reflexivity]. case_decide; [lia | reflexivity].
Qed.

Lemma magnitudes_upto_nth_magnitude (F : list (list R)) k xs i :
  i < k -> i < length xs ->
  nth i (magnitudes_upto F k xs) 0%R = diff_mag (nth i xs 0%R) (frame_average F i).
Proof.
  intros Hi Hlen. rewrite !nth_lookup, magnitudes_upto_lookup.
  destruct (lookup_lt_is_Some_2 xs i Hlen) as [x ->]. cbn.
  case_decide; [reflexivity | lia].
Qed.

Lemma frame_column_upto (F G : list (list R)) (k : nat) :
  frame_column (map (magnitudes_upto G k) F) k = frame_column F k.
Proof.
  unfold frame_column. rewrite map_map. apply map_ext.
  intros row. now apply magnitudes_upto_nth_flux.
Qed.

(** A write into the list object of the reference [r] changes the row
    [r] only: the objects of the references are distinct. *)
Lemma holds_insert (h : list (list R)) (locs : list nat) (M : list (list R))
    r l row' :
  NoDup locs -> holds h locs M -> locs !! r = Some l ->
  holds (<[l := row']> h) locs (<[r := row']> M).
Proof.
  intros Hnodup HM Hl. unfold holds in *.
  apply Forall2_same_length_lookup_2.
  - rewrite length_insert. exact (Forall2_length _ _ _ HM).
  - intros i l' row Hl' Hrow.
    destruct (holds_lookup _ _ _ _ _ HM Hl') as (row0 & Hrow0 & Hh).
    destruct (decide (i = r)) as [-> | Hne].
    + assert (l' = l) as -> by congruence.
      rewrite list_lookup_insert_eq in Hrow
        by (eapply lookup_lt_Some; eassumption).
      injection Hrow as <-.
      apply list_lookup_insert_eq. eapply lookup_lt_Some; eassumption.
    + rewrite list_lookup_insert_ne in Hrow by congruence.
      assert (l <> l').
      { intros ->. apply Hne. eapply NoDup_lookup; eassumption. }
      rewrite list_lookup_insert_ne by assumption. congruence.
Qed.

(** The rows while line 171 has been run for the references before [r]. *)
Lemma insert_take_drop {A} (X Y : list A) (r : nat) (x : A) :
  length X = length Y -> X !! r = Some x ->
  <[r := x]> (take r X ++ drop r Y) = take (S r) X ++ drop (S r) Y.
Proof.
  intros Hlen Hx.
  assert (Hr : r < length Y) by (rewrite <- Hlen; eapply lookup_lt_Some; eassumption).
  destruct (lookup_lt_is_Some_2 Y r Hr) as [y Hy].
  rewrite (drop_S Y y r Hy), (take_S_r X r x Hx).
  rewrite insert_app_r_alt by (rewrite length_take; lia).
  rewrite length_take. replace (r - r `min` length X) with 0 by lia.
  cbn. now rewrite <- app_assoc.
Qed.

(** Lines 164-165 gather the column of the frame [i]. *)
Lemma frame_values_run (s : state) (locs : list nat) (M : list (list R)) i :
  reference (self s) = map ERef locs ->
  holds (heap s) locs M ->
  Forall (fun row => i < length row) M ->
  frame_values i s = (s, [], Ok (frame_column M i)).
Proof.
  intros Href HM Hlen. unfold frame_values.
  rewrite bind_gets, Href, length_map.
  pose (I := fun (r : nat) (values : list R) (s' : state) =>
               s' = s /\ values = frame_column (take r M) i).
  destruct (for_each_seq_total I
              (fun r values =>
                 bind (reference_at r)
                   (fun x => bind (getitem x i) (fun v => ret (values ++ [v]))))
              (length locs) 0) with (acc := @nil R) (s := s)
    as (values & s' & Hrun & -> & ->).
  - intros r values sr [_ Hr] [-> ->]. cbn in Hr.
    destruct (lookup_lt_is_Some_2 locs r Hr) as [l Hl].
    destruct (holds_lookup _ _ _ _ _ HM Hl) as (row & Hrow & Hh).
    assert (Hi : i < length row).
    { rewrite Forall_lookup in Hlen. exact (Hlen r row Hrow). }
    destruct (lookup_lt_is_Some_2 row i Hi) as [x Hx].
    exists (frame_column (take r M) i ++ [x]), s. split.
    + unfold reference_at. rewrite bind_assoc, bind_gets, Href, list_lookup_fmap, Hl.
      cbn [fmap option_fmap option_map]. rewrite (bind_orraise _ _ _ _ _ eq_refl).
      unfold getitem. rewrite bind_assoc, bind_assoc, bind_gets, Hh.
      rewrite (bind_orraise _ _ _ _ _ eq_refl), (bind_orraise _ _ _ _ _ Hx).
      reflexivity.
    + split; [reflexivity |].
      rewrite (take_S_r M r row Hrow). unfold frame_column.
      rewrite map_app. cbn. rewrite nth_lookup, Hx. reflexivity.
  - split; reflexivity.
  - rewrite Hrun. cbn. rewrite <- (holds_length _ _ _ HM), firstn_all. reflexivity.
Qed.

(** Lines 170-171 at the frame [k] rewrite the column [k] of every row,
    in the list objects that [self.reference] refers to. *)
Lemma write_reference_magnitudes_run (s : state) (locs : list nat)
    (F : list (list R)) (k n : nat) :
  reference (self s) = map ERef locs ->
  NoDup locs ->
  holds (heap s) locs (map (magnitudes_upto F k) F) ->
  Forall (fun row => length row = n) F ->
  k < n ->
  exists s',
    for_each (seq 0 (length locs))
      (fun r _ =>
         write_reference_magnitude (map ERef locs) k (frame_average F k) r)
      tt s
    = (s', [], Ok tt)
    /\ self s' = self s
    /\ holds (heap s') locs (map (magnitudes_upto F (S k)) F).
Proof.
  intros Href Hnodup HM Hrows Hk.
  pose proof (holds_length _ _ _ HM) as HlenF. rewrite length_map in HlenF.
  pose (I := fun (r : nat) (_ : unit) (s' : state) =>
               self s' = self s
               /\ holds (heap s') locs
                    (take r (map (magnitudes_upto F (S k)) F)
                     ++ drop r (map (magnitudes_upto F k) F))).
  destruct (for_each_seq_total I
              (fun r _ =>
                 write_reference_magnitude (map ERef locs) k (frame_average F k) r)
              (length locs) 0) with (acc := tt) (s := s)
    as ([] & s' & Hrun & Hself & Hheap).
  - intros r [] sr [_ Hr] [Hself Hheap]. cbn in Hr.
    destruct (lookup_lt_is_Some_2 locs r Hr) as [l Hl].
    destruct (lookup_lt_is_Some_2 F r) as [row0 Hrow0]; [lia |].
    destruct (holds_lookup _ _ _ _ _ Hheap Hl) as (row & Hrow & Hh).
    rewrite lookup_app_r in Hrow by (rewrite length_take, length_map; lia).
    rewrite length_take, length_map, lookup_drop, list_lookup_fmap in Hrow.
    replace (r + (r - r `min` length F)) with r in Hrow by lia.
    rewrite Hrow0 in Hrow. injection Hrow as <-.
    assert (Hlen0 : length row0 = n).
    { rewrite Forall_lookup in Hrows. exact (Hrows r row0 Hrow0). }
    destruct (lookup_lt_is_Some_2 row0 k) as [x Hx]; [lia |].
    eexists tt, _. split.
    + unfold write_reference_magnitude, reference_at.
      rewrite bind_assoc, bind_gets, Hself, Href, list_lookup_fmap, Hl.
      cbn [fmap option_fmap option_map]. rewrite (bind_orraise _ _ _ _ _ eq_refl).
      unfold getitem. rewrite bind_assoc, bind_assoc, bind_gets, Hh.
      rewrite (bind_orraise _ _ _ _ _ eq_refl).
      rewrite (bind_orraise _ _ _ _ x)
        by (rewrite magnitudes_upto_lookup, Hx; cbn; case_decide; [lia | reflexivity]).
      rewrite (bind_orraise _ _ _ _ _ eq_refl).
      unfold setitem. rewrite bind_assoc, bind_gets, Hh.
      rewrite (bind_orraise _ _ _ _ _ eq_refl).
      rewrite magnitudes_upto_length.
      destruct (Nat.ltb_spec k (length row0)) as [_ | ?]; [| lia].
      reflexivity.
    + split; [exact Hself |]. cbn [heap].
      rewrite (magnitudes_upto_S F k row0 x Hx).
      rewrite <- (insert_take_drop (map (magnitudes_upto F (S k)) F)
                    (map (magnitudes_upto F k) F) r (magnitudes_upto F (S k) row0)).
      * now apply holds_insert.
      * now rewrite !length_map.
      * now rewrite list_lookup_fmap, Hrow0.
  - split; [reflexivity |]. exact HM.
  - exists s'. split; [exact Hrun |]. split; [exact Hself |].
    cbn in Hheap. rewrite <- HlenF in Hheap.
    rewrite <- (length_map (magnitudes_upto F (S k)) F) in Hheap at 1.
    rewrite firstn_all in Hheap.
    rewrite <- (length_map (magnitudes_upto F k) F) in Hheap.
    rewrite drop_all, app_nil_r in Hheap. exact Hheap.
Qed.

Lemma average_run (values : list R) (s : state) :
  values <> [] ->
  average values s = (s, [], Ok (py_sum values / INR (length values))%R).
Proof. destruct values; [congruence | reflexivity]. Qed.

(** Lines 162-171 at the frame [k], when the frames before [k] are
    done. *)
Lemma multi_frame_run (s : state) (locs : list nat) (F : list (list R))
    (ts : list R) (k n : nat) :
  reference (self s) = map ERef locs ->
  target (self s) = ts ->
  NoDup locs ->
  0 < length locs ->
  length ts = n ->
  Forall (fun row => length row = n) F ->
  k < n ->
  holds (heap s) locs (map (magnitudes_upto F k) F) ->
  exists s',
    multi_frame (map ERef locs) k (magnitudes_upto F k ts) s
    = (s', [], Ok (magnitudes_upto F (S k) ts))
    /\ self s' = self s
    /\ holds (heap s') locs (map (magnitudes_upto F (S k)) F).
Proof.
  intros Href Hts Hnodup HR Hlen Hrows Hk HM.
  pose proof (holds_length _ _ _ HM) as HlenF. rewrite length_map in HlenF.
  destruct (write_reference_magnitudes_run s locs F k n Href Hnodup HM Hrows Hk)
    as (s' & Hwrite & Hself & HM').
  destruct (lookup_lt_is_Some_2 ts k) as [t Ht]; [lia |].
  assert (Hcols : Forall (fun row => k < length row) (map (magnitudes_upto F k) F)).
  { apply Forall_fmap. eapply Forall_impl; [exact Hrows |].
    intros row Hrow. unfold compose. cbv beta in Hrow.
    rewrite magnitudes_upto_length. lia. }
  assert (Hvalues : frame_column F k <> []).
  { intros Hnil. apply (f_equal (@length R)) in Hnil.
    unfold frame_column in Hnil. rewrite length_map in Hnil. cbn in Hnil. lia. }
  exists s'. split; [| split; assumption].
  unfold multi_frame.
  rewrite (bind_step _ _ _ _ _
             (frame_values_run s locs (map (magnitudes_upto F k) F) k Href HM Hcols)).
  rewrite frame_column_upto.
  rewrite (bind_step _ _ _ _ _ (average_run (frame_column F k) s Hvalues)).
  unfold target_at. rewrite bind_assoc, bind_gets, Hts.
  rewrite (bind_orraise _ _ _ _ _ Ht). cbv zeta.
  rewrite bind_gets, Href, length_map.
  fold (frame_average F k).
  rewrite (bind_step _ _ _ _ _ Hwrite).
  rewrite (magnitudes_upto_S F k ts t Ht). reflexivity.
Qed.

(** The loop of lines 161-171 over all the frames. *)
Lemma multi_reference_loop (s : state) (locs : list nat) (F : list (list R)) :
  reference (self s) = map ERef locs ->
  NoDup locs ->
  0 < length locs ->
  Forall (fun row => length row = length (target (self s))) F ->
  holds (heap s) locs F ->
  exists s',
    for_each (seq 0 (length (target (self s)))) (multi_frame (map ERef locs))
      (target (self s)) s
    = (s', [], Ok (magnitudes_upto F (length (target (self s))) (target (self s))))
    /\ self s' = self s
    /\ holds (heap s') locs
         (map (magnitudes_upto F (length (target (self s)))) F).
Proof.
  intros Href Hnodup HR Hrows HF.
  set (ts := target (self s)) in *. set (n := length ts) in *.
  pose (I := fun (k : nat) (td : list R) (s' : state) =>
               self s' = self s
               /\ td = magnitudes_upto F k ts
               /\ holds (heap s') locs (map (magnitudes_upto F k) F)).
  destruct (for_each_seq_total I (multi_frame (map ERef locs)) n 0)
    with (acc := ts) (s := s) as (td & s' & Hrun & Hself & -> & HM).
  - intros k td sk [_ Hk] (Hself & -> & HM). cbn in Hk.
    destruct (multi_frame_run sk locs F ts k n) as (s' & Hrun & Hself' & HM');
      try assumption; try reflexivity.
    + now rewrite Hself.
    + now rewrite Hself.
    + exists (magnitudes_upto F (S k) ts), s'.
      split; [exact Hrun |]. split; [congruence |]. split; [reflexivity | exact HM'].
  - split; [reflexivity |]. split; [now rewrite magnitudes_upto_0 |].
    now rewrite map_magnitudes_upto_0.
  - exists s'. cbn in Hrun, HM. auto.
Qed.

(** A call of [set_reference] with a list of positions leaves a
    configuration of that many references. *)
Lemma set_reference_configures (E : env) (s s' : state)
    (first : pyobj) (rest : list pyobj) (radius name : pyobj) :
  CircularAperture_raises E (PList (first :: rest)) radius = None ->
  py_len first = Some 2 ->
  set_reference E (PList (first :: rest)) radius name s = (s', [], Ok tt) ->
  configured_references s' (seq (length (heap s)) (S (length rest))).
Proof.
  intros Hap Hlen Hrun.
  destruct (set_reference_list_run E s first rest radius name Hap Hlen)
    as (s'' & Hrun' & Hn & Href & Hheap & _).
  rewrite Hrun in Hrun'. injection Hrun' as <-.
  unfold configured_references. rewrite length_seq.
  split; [exact Hn |]. split; [exact Href |]. split; [apply NoDup_seq |].
  intros l [Hl1 Hl2]%in_seq. rewrite Hheap.
  rewrite lookup_app_r by lia. apply lookup_replicate_2. lia.
Qed.




(** ** The flux after the magnitudes *)

Local Open Scope R_scope.

Lemma ln_10_pos : 0 < ln 10.
Proof. rewrite <- ln_1. apply ln_increasing; lra. Qed.

Lemma log10_pos (x : R) : 1 < x -> 0 < log10 x.
Proof.
  intros Hx. unfold log10. apply Rdiv_lt_0_compat; [| apply ln_10_pos].
  rewrite <- ln_1. apply ln_increasing; lra.
Qed.

Lemma log10_neg (x : R) : 0 < x < 1 -> log10 x < 0.
Proof.
  intros Hx. unfold log10.
  assert (ln x < 0) by (rewrite <- ln_1; apply ln_increasing; lra).
  pose proof ln_10_pos. unfold Rdiv.
  assert (0 < / ln 10) by now apply Rinv_0_lt_compat.
  nra.
Qed.

Lemma log10_mult (x y : R) :
  0 < x -> 0 < y -> log10 (x * y) = log10 x + log10 y.
Proof.
  intros Hx Hy. unfold log10. rewrite ln_mult by assumption.
  field. pose proof ln_10_pos. lra.
Qed.

Lemma log10_above (x : R) : / 10 < x -> -1 < log10 x.
Proof.
  intros Hx. unfold log10. pose proof ln_10_pos as Hc.
  assert (Hl : ln (/ 10) < ln x) by (apply ln_increasing; lra).
  rewrite ln_Rinv in Hl by lra.
  apply (Rmult_lt_reg_r (ln 10)); [exact Hc |].
  unfold Rdiv. rewrite Rmult_assoc, Rinv_l by lra. lra.
Qed.

(** A target brighter than the reference has a negative magnitude. *)
Lemma diff_mag_neg (x y : R) : 0 < y < x -> diff_mag x y < 0.
Proof.
  intros Hxy. unfold diff_mag.
  assert (1 < x / y).
  { apply (Rmult_lt_reg_r y); [lra |].
    unfold Rdiv. rewrite Rmult_assoc, Rinv_l by lra. lra. }
  pose proof (log10_pos (x / y)). lra.
Qed.

Lemma average_50_150 : py_sum [50; 150] / INR 2 = 100.
Proof. unfold py_sum. cbn. lra. Qed.

Lemma magnitude_50_bounds : 0 < diff_mag 50 100 < 2.5.
Proof.
  unfold diff_mag. replace (50 / 100) with (/ 2) by lra.
  pose proof (log10_neg (/ 2)). pose proof (log10_above (/ 2)). lra.
Qed.

Lemma magnitude_150_neg : diff_mag 150 100 < 0.
Proof.
  unfold diff_mag. replace (150 / 100) with (3 / 2) by lra.
  pose proof (log10_pos (3 / 2)). lra.
Qed.

Lemma magnitude_sum_pos : 0 < diff_mag 50 100 + diff_mag 150 100.
Proof.
  unfold diff_mag. replace (50 / 100) with (/ 2) by lra.
  replace (150 / 100) with (3 / 2) by lra.
  pose proof (log10_mult (/ 2) (3 / 2)) as Hm.
  replace (/ 2 * (3 / 2)) with (3 / 4) in Hm by lra.
  pose proof (log10_neg (3 / 4)). lra.
Qed.

(** C2.  One frame, a target of flux 100 and two references of flux 50
    and 150.  Line 151 copies the outer list of [self.reference] only, so
    that line 171 writes the magnitudes into the flux lists themselves:
    after the first [compute("average")] the reference flux series hold
    the magnitudes, and a second call computes from these a target
    magnitude that differs from the first. *)
Theorem compute_overwrites_reference_flux :
  exists s1 s2 s3 s4 s5 t2,
    run one_frame_env target_100 one_frame = (s1, [], Ok tt)
    /\ run one_frame_env references_50_150 s1 = (s2, [], Ok tt)
    /\ read_apertures one_frame_env s2 = (s3, [], Ok tt)
    /\ target (self s3) = [100]
    /\ reference (self s3) = [ERef 0; ERef 1]
    /\ heap s3 = [[50]; [150]]
    /\ differential_magnitude (PStr "average") s3 = (s4, [], Ok tt)
    /\ target (self s4) = [100]
    /\ reference (self s4) = [ERef 0; ERef 1]
    /\ heap s4 = [[diff_mag 50 100]; [diff_mag 150 100]]
    /\ heap s4 <> heap s3
    /\ target_magnitude (self s4) = Some [0]
    /\ differential_magnitude (PStr "average") s4 = (s5, [], Ok tt)
    /\ target_magnitude (self s5) = Some [t2]
    /\ t2 <> 0.
Proof.
  do 6 eexists.
  do 9 (split; [evaluate |]).
  assert (Hheap : forall h, h = [[diff_mag 50 (py_sum [50; 150] / INR 2)];
                                 [diff_mag 150 (py_sum [50; 150] / INR 2)]] ->
                            h = [[diff_mag 50 100]; [diff_mag 150 100]]).
  { intros h ->. now rewrite average_50_150. }
  split; [apply Hheap; evaluate |].
  split.
  { intros Heq. apply (f_equal (fun h => nth 0 (nth 0 h []) 0)) in Heq.
    cbv -[IZR Rdiv Rmult Rplus Rminus Ropp Rinv INR ln log10 diff_mag py_sum] in Heq.
    rewrite average_50_150 in Heq. pose proof magnitude_50_bounds. lra. }
  split.
  { cbv -[IZR Rdiv Rmult Rplus Rminus Ropp Rinv INR ln log10 diff_mag py_sum].
    rewrite average_50_150, diff_mag_diag by lra. reflexivity. }
  split; [evaluate |]. split; [evaluate |].
  rewrite average_50_150. unfold py_sum. cbn [fold_left INR].
  pose proof magnitude_50_bounds. pose proof magnitude_150_neg.
  pose proof magnitude_sum_pos.
  apply Rlt_not_eq, diff_mag_neg. lra.
Qed.

Local Close Scope R_scope.

(** * Further properties of the catalog *)

(** A list has one sorted arrangement. *)
Lemma sorted_arrangement_unique (l l' : list string) :
  StronglySorted string_le l -> StronglySorted string_le l' ->
  Permutation l l' -> l = l'.
Proof.
  intros Hl. revert l'. induction Hl as [| x l Hl IH Hx]; intros l' Hl' Hperm.
  - now apply Permutation_nil in Hperm.
  - destruct Hl' as [| y l' Hl' Hy].
    + symmetry in Hperm. now apply Permutation_nil in Hperm.
    + assert (x = y) as <-.
      { assert (Hxin : In x (y :: l')) by (eapply Permutation_in; [exact Hperm | now left]).
        assert (Hyin : In y (x :: l)).
        { eapply Permutation_in; [symmetry; exact Hperm | now left]. }
        destruct Hxin as [-> | Hxin]; [reflexivity |].
        destruct Hyin as [-> | Hyin]; [reflexivity |].
        rewrite Forall_forall in Hx, Hy.
        apply String.leb_antisym.
        - apply Hx. now apply list_elem_of_In.
        - apply Hy. now apply list_elem_of_In. }
      f_equal. apply IH; [exact Hl' |].
      eapply Permutation_cons_inv. exact Hperm.
Qed.

Lemma list_sort_permutation_invariant (l l' : list string) :
  Permutation l l' -> list_sort l = list_sort l'.
Proof.
  intros Hperm. apply sorted_arrangement_unique; try apply list_sort_sorted.
  rewrite <- (list_sort_perm l), <- (list_sort_perm l'). exact Hperm.
Qed.

(** X1.  The order of the catalog does not depend on the order in which
    the file system lists the files: two constructions over listings that
    are permutations of one another have the same [fits_list]. *)
Theorem catalog_order_independent_of_listing (E E' : env) (path : string)
    (s s' : state) :
  init E path = inr s ->
  init E' path = inr s' ->
  Permutation (glob_glob E (os_path_dirname path) path)
              (glob_glob E' (os_path_dirname path) path) ->
  fits_list (self s) = fits_list (self s').
Proof.
  intros (_ & Hs & _)%init_inv (_ & Hs' & _)%init_inv Hperm.
  rewrite Hs, Hs'. now apply list_sort_permutation_invariant.
Qed.

Lemma catalog_order_independent_of_listing_witness :
  exists s s',
    init (stub_env ["/d/f2"; "/d/f10"; "/d/f1"]) "/d/f*" = inr s
    /\ init (stub_env ["/d/f10"; "/d/f1"; "/d/f2"]) "/d/f*" = inr s'
    /\ fits_list (self s) = fits_list (self s').
Proof.
  do 2 eexists.
  assert (H1 : init (stub_env ["/d/f2"; "/d/f10"; "/d/f1"]) "/d/f*" = inr _)
    by reflexivity.
  assert (H2 : init (stub_env ["/d/f10"; "/d/f1"; "/d/f2"]) "/d/f*" = inr _)
    by reflexivity.
  split; [exact H1 |]. split; [exact H2 |].
  apply (catalog_order_independent_of_listing _ _ _ _ _ H1 H2).
  exact (Permutation_cons_append ["/d/f10"; "/d/f1"] "/d/f2").
Defined.

Lemma load_frames_jd (E : env) (d : string) (paths : list string) :
  forall hdus jds hdus' jds',
    Forall2 (fun h jd => header_get (header h) "JD" = Some jd) hdus jds ->
    load_frames E d paths hdus jds = inr (hdus', jds') ->
    Forall2 (fun h jd => header_get (header h) "JD" = Some jd) hdus' jds'.
Proof.
  induction paths as [| i paths IH]; intros hdus jds hdus' jds' Hseen; simpl.
  - now intros [= <- <-].
  - destruct (fits_open E d i) as [e | h]; [discriminate |].
    destruct (header_get (header h) "JD") as [jd |] eqn:Hjd; [| discriminate].
    apply IH. apply Forall2_app; [exact Hseen | now repeat constructor].
Qed.

Lemma init_loads (E : env) (path : string) (s : state) :
  init E path = inr s ->
  load_frames E (os_path_dirname path) (fits_list (self s)) [] []
  = inr (hdu_list (self s), jd_axis (self s)).
Proof.
  unfold init. destruct (has_wildcard path); [| discriminate].
  destruct (os_chdir E (os_path_dirname path)); [| discriminate].
  destruct (load_frames E _ _ [] []) as [e | [hdus jds]] eqn:Hload; [discriminate |].
  intros [= <-]. exact Hload.
Qed.

(** X2.  An instance that [__init__] has built has one path, one frame
    and one time value per discovered file, in the same order, and the
    time value of a frame is the [JD] card of its header. *)
Theorem catalog_time_axis_aligned (E : env) (path : string) (s : state) :
  init E path = inr s ->
  Forall2 (fun h jd => header_get (header h) "JD" = Some jd)
    (hdu_list (self s)) (jd_axis (self s))
  /\ length (jd_axis (self s)) = frameCount s
  /\ length (fits_list (self s)) = frameCount s.
Proof.
  intros Hload%init_loads.
  assert (Hjd : Forall2 (fun h jd => header_get (header h) "JD" = Some jd)
                  (hdu_list (self s)) (jd_axis (self s))).
  { eapply load_frames_jd; [| exact Hload]. constructor. }
  split; [exact Hjd |]. unfold frameCount. split.
  - symmetry. exact (Forall2_length _ _ _ Hjd).
  - assert (Hal : Forall2 (fun p h => fits_open E (os_path_dirname path) p = inr h)
                    ([] ++ fits_list (self s)) (hdu_list (self s))).
    { eapply load_frames_aligned; [| exact Hload]. constructor. }
    exact (Forall2_length _ _ _ Hal).
Qed.

Lemma catalog_time_axis_aligned_witness :
  exists s,
    init (stub_env ["/d/f2"; "/d/f10"; "/d/f1"]) "/d/f*" = inr s
    /\ length (jd_axis (self s)) = 3 /\ frameCount s = 3.
Proof.
  eexists.
  assert (H : init (stub_env ["/d/f2"; "/d/f10"; "/d/f1"]) "/d/f*" = inr _)
    by reflexivity.
  split; [exact H |].
  destruct (catalog_time_axis_aligned _ _ _ H) as (_ & Hjd & _).
  split; [rewrite Hjd |]; reflexivity.
Defined.

Lemma load_frames_missing_card (E : env) (d : string) (paths : list string) :
  (forall p, In p paths -> exists h, fits_open E d p = inr h) ->
  (exists p h, In p paths /\ fits_open E d p = inr h
               /\ header_get (header h) "JD" = None) ->
  forall hdus jds, load_frames E d paths hdus jds = inl KeyError.
Proof.
  induction paths as [| i paths IH]; intros Hopen (p & h & Hin & Hp & Hcard) hdus jds.
  - destruct Hin.
  - simpl. destruct (Hopen i (or_introl eq_refl)) as [hi Hi]. rewrite Hi.
    destruct (header_get (header hi) "JD") as [jd |] eqn:Hjd; [| reflexivity].
    apply IH.
    + intros q Hq. apply Hopen. now right.
    + exists p, h. destruct Hin as [-> | Hin]; [congruence | auto].
Qed.

(** X3.  If every discovered file opens and one of them has no [JD] card
    in its header, the construction fails with [KeyError] and yields no
    instance. *)
Theorem init_missing_time_card (E : env) (path : string) :
  has_wildcard path = true ->
  os_chdir E (os_path_dirname path) = true ->
  (forall p, In p (glob_glob E (os_path_dirname path) path) ->
     exists h, fits_open E (os_path_dirname path) p = inr h) ->
  (exists p h, In p (glob_glob E (os_path_dirname path) path)
               /\ fits_open E (os_path_dirname path) p = inr h
               /\ header_get (header h) "JD" = None) ->
  init E path = inl KeyError.
Proof.
  intros Hwild Hdir Hopen (p & h & Hin & Hp & Hcard). unfold init.
  rewrite Hwild, Hdir. rewrite load_frames_missing_card; [reflexivity | |].
  - intros q Hq. apply Hopen.
    eapply Permutation_in; [symmetry; apply list_sort_perm | exact Hq].
  - exists p, h. split; [| auto].
    eapply Permutation_in; [apply list_sort_perm | exact Hin].
Qed.

Lemma init_missing_time_card_witness :
  init (strict_env ["sky1.fit"; "raw2.fit"; "sky3.fit"]) "/d/*.fit" = inl KeyError.
Proof.
  apply init_missing_time_card.
  - reflexivity.
  - reflexivity.
  - intros p _. cbn. unfold strict_open.
    destruct (starts_with "raw" p); [eauto |].
    destruct (starts_with "bad" p); eauto.
  - exists "raw2.fit", (mkHdu [] [[1%R]]). cbn. auto.
Defined.

Lemma dirname_without_separator (p : string) :
  existsb (Ascii.eqb "/") (list_ascii_of_string p) = false ->
  os_path_dirname p = "".
Proof.
  intros Hsep. unfold os_path_dirname.
  destruct (list_ascii_of_string p) as [| c l]; [reflexivity |].
  cbn [upto_last_sep]. rewrite Hsep. reflexivity.
Qed.

(** X4.  A pattern without a directory part, such as [*.fit], cannot be
    used: [__init__] changes the working directory to the directory part
    of the pattern, which is the empty path, and where that change fails
    (as [os.chdir("")] does) the construction raises before any file is
    listed. *)
Theorem init_pattern_without_directory (E : env) (path : string) :
  has_wildcard path = true ->
  existsb (Ascii.eqb "/") (list_ascii_of_string path) = false ->
  os_chdir E "" = false ->
  init E path = inl FileNotFoundError.
Proof.
  intros Hwild Hsep Hdir. unfold init.
  rewrite Hwild, (dirname_without_separator path Hsep), Hdir. reflexivity.
Qed.

Lemma init_pattern_without_directory_witness :
  init (strict_env ["sky1.fit"]) "*.fit" = inl FileNotFoundError.
Proof. apply init_pattern_without_directory; reflexivity. Defined.

(** * Further properties of the configuration *)

(** [len] of a [str] counts code points: a two-byte character counts
    once. *)
Lemma str_len_counts_code_points :
  str_len (String "a" (String "195" (String "169" EmptyString))) = 2
  /\ py_len (PStr (String "a" (String "195" (String "169" EmptyString)))) = Some 2
  /\ str_len "ab" = 2
  /\ str_len "" = 0.
Proof. repeat split; reflexivity. Qed.

(** X5.  A rejected position changes nothing.  [set_target] with a
    position that is not a tuple of two entries, and [set_reference] with
    a position that is neither such a tuple nor a list, or with a list
    whose first element has a length other than two, print their notice
    and return, and the instance and the store are as before. *)
Theorem rejected_position_changes_nothing (E : env) (s : state)
    (position radius name : pyobj) :
  is_tuple_of_len_2 position = false ->
  set_target E position radius name s = (s, [MsgTargetPosition], Ok tt)
  /\ ((match position with PList _ => False | _ => True end
       \/ exists first rest k,
            position = PList (first :: rest) /\ py_len first = Some k /\ k <> 2) ->
      set_reference E position radius name s = (s, [MsgReferencePosition], Ok tt)
      /\ signalled (set_reference E position radius name s)
         = Some InvalidPositionError).
Proof.
  intros Htuple. split.
  - unfold set_target. now rewrite Htuple.
  - intros Hshape.
    assert (Hrun : set_reference E position radius name s
                   = (s, [MsgReferencePosition], Ok tt)).
    { unfold set_reference. rewrite Htuple.
      destruct Hshape as [Hother | (first & rest & k & -> & Hlen & Hk)].
      - destruct position; try reflexivity. destruct Hother.
      - assert (Hcond : is_list_of_len_2_first (PList (first :: rest)) s
                        = (s, [], Ok (Nat.eqb k 2))).
        { unfold is_list_of_len_2_first. cbn [lookup list_lookup].
          unfold bind, orraise, ret. now rewrite Hlen. }
        cbn [is_tuple_of_len_2]. rewrite (bind_step _ _ _ _ _ Hcond).
        destruct (Nat.eqb_spec k 2) as [? | _]; [contradiction | reflexivity]. }
    rewrite Hrun. split; reflexivity.
Qed.

Lemma rejected_position_changes_nothing_witness :
  let p := PTuple [PFloat 1; PFloat 2; PFloat 3] in
  let q := PList [PTuple [PFloat 1; PFloat 2; PFloat 3]; xy 4 5] in
  set_target one_frame_env p radius8 PNone one_frame
  = (one_frame, [MsgTargetPosition], Ok tt)
  /\ set_reference one_frame_env p radius8 PNone one_frame
     = (one_frame, [MsgReferencePosition], Ok tt)
  /\ set_reference one_frame_env q radius8 PNone one_frame
     = (one_frame, [MsgReferencePosition], Ok tt).
Proof.
  intros p q.
  destruct (rejected_position_changes_nothing one_frame_env one_frame p radius8 PNone
              eq_refl) as [Ht Hr].
  destruct (rejected_position_changes_nothing one_frame_env one_frame q radius8 PNone
              eq_refl) as [_ Hq].
  split; [exact Ht |]. split.
  - apply Hr. now left.
  - apply Hq. right. exists (PTuple [PFloat 1; PFloat 2; PFloat 3]), [xy 4 5], 3.
    split; [reflexivity |]. split; [reflexivity | lia].
Defined.

(** X6.  [set_reference] with a list whose first element has no length,
    such as a list of two coordinates, raises [TypeError] from the test
    of line 96, and the instance and the store are as before. *)
Theorem set_reference_list_of_numbers_raises (E : env) (s : state)
    (first : pyobj) (rest : list pyobj) (radius name : pyobj) :
  py_len first = None ->
  set_reference E (PList (first :: rest)) radius name s = (s, [], Exc TypeError).
Proof.
  intros Hlen.
  assert (Hcond : is_list_of_len_2_first (PList (first :: rest)) s
                  = (s, [], Exc TypeError)).
  { unfold is_list_of_len_2_first. cbn [lookup list_lookup].
    unfold bind, orraise, ret, raise. now rewrite Hlen. }
  unfold set_reference. cbn [is_tuple_of_len_2]. unfold bind at 1.
  now rewrite Hcond.
Qed.

Lemma set_reference_list_of_numbers_raises_witness :
  set_reference one_frame_env (PList [PFloat 1108.81; PFloat 1015.97]) radius8 PNone
    one_frame
  = (one_frame, [], Exc TypeError).
Proof. now apply set_reference_list_of_numbers_raises. Defined.

(** X7.  When the aperture constructor raises, the exception leaves the
    method after the new position has been stored: [set_target] has
    assigned [target_pos], [set_reference] has assigned
    [number_of_references] and [reference_pos], and nothing else (the
    apertures, the names, both flux series) has changed. *)
Theorem aperture_failure_keeps_new_position (E : env) (s : state)
    (position radius name : pyobj) (e : exn) :
  is_tuple_of_len_2 position = true ->
  CircularAperture_raises E position radius = Some e ->
  set_target E position radius name s
  = (set_self (with_target_pos (Some position)) s, [], Exc e)
  /\ set_reference E position radius name s
     = (set_self (with_reference_pos (Some position))
          (set_self (with_number_of_references (Some 1)) s), [], Exc e).
Proof.
  intros Htuple Hap. split.
  - unfold set_target, CircularAperture. rewrite Htuple, Hap.
    rewrite bind_modify. reflexivity.
  - unfold set_reference, CircularAperture. rewrite Htuple, Hap.
    rewrite !bind_modify. reflexivity.
Qed.

Lemma init_two_frame : init two_frame_env "/d/*.fit" = inr two_frame.
Proof. reflexivity. Qed.

Lemma aperture_failure_keeps_new_position_witness :
  init two_frame_env "/d/*.fit" = inr two_frame
  /\ set_target two_frame_env (xy 100 0) (PInt 0) PNone two_frame
     = (set_self (with_target_pos (Some (xy 100 0))) two_frame, [],
        Exc LibraryError).
Proof.
  split; [reflexivity |].
  exact (proj1 (aperture_failure_keeps_new_position two_frame_env two_frame
                  (xy 100 0) (PInt 0) PNone LibraryError eq_refl eq_refl)).
Defined.

(** X8.  An instance whose positions are set but whose target aperture
    is not (the constructor of the aperture raised) passes the test of
    line 117, and the extraction raises [AttributeError] at the first
    frame without extracting anything. *)
Theorem extraction_without_aperture_raises (E : env) (s : state) :
  is_None (target_pos (self s)) = false ->
  is_None (reference_pos (self s)) = false ->
  target (self s) = [] ->
  target_aperture (self s) = None ->
  hdu_list (self s) <> [] ->
  read_apertures E s = (s, [], Exc AttributeError).
Proof.
  intros Htp Hrp Ht Hap Hframes. unfold read_apertures.
  rewrite !bind_gets, Htp, Hrp. cbn [orb]. rewrite bind_gets, Ht, bind_gets.
  destruct (hdu_list (self s)) as [| i hdus]; [congruence |].
  cbn [for_each]. unfold read_frame, read_target_flux, getattr, bind, gets, orraise, raise.
  now rewrite Hap.
Qed.

Lemma extraction_without_aperture_raises_witness :
  let E := two_frame_env in
  let s := run_all E [SetTarget (xy 100 0) (PInt 0) PNone;
                      SetReference (xy 50 0) (PInt 0) PNone]
             two_frame in
  read_apertures E s = (s, [], Exc AttributeError).
Proof.
  intros E s. apply extraction_without_aperture_raises.
  - reflexivity.
  - reflexivity.
  - reflexivity.
  - reflexivity.
  - discriminate.
Defined.

(** X19.  The target and the reference can be configured in either
    order: whatever the arguments, the two orders of a [set_target] and a
    [set_reference] call leave the same instance and store, and each call
    prints and returns or raises the same in both orders. *)
Theorem configuration_order_irrelevant (E : env) (s : state)
    (pt rt nt pr rr nr : pyobj) :
  after (set_reference E pr rr nr) (after (set_target E pt rt nt) s)
  = after (set_target E pt rt nt) (after (set_reference E pr rr nr) s)
  /\ (let out := set_target E pt rt nt s in
      let out' := set_target E pt rt nt (after (set_reference E pr rr nr) s) in
      snd (fst out) = snd (fst out') /\ snd out = snd out')
  /\ (let out := set_reference E pr rr nr s in
      let out' := set_reference E pr rr nr (after (set_target E pt rt nt) s) in
      snd (fst out) = snd (fst out') /\ snd out = snd out').
Proof.
  unfold after, set_target, set_reference, CircularAperture,
    is_list_of_len_2_first, new_lists, bind, modify, ret, raise, print, orraise.
  destruct (is_tuple_of_len_2 pt), (CircularAperture_raises E pt rt), (is_str nt);
    cbn;
    destruct (is_tuple_of_len_2 pr), (CircularAperture_raises E pr rr),
      (is_str_or_list nr); cbn; try (repeat split; reflexivity).
  all: destruct pr as [| | | | | [| first rest]]; cbn; try (repeat split; reflexivity).
  all: destruct (py_len first) as [k |]; cbn; try (repeat split; reflexivity).
  all: destruct (Nat.eqb k 2); cbn; repeat split; reflexivity.
Qed.

Lemma same_target_pos_refl (s : state) : same_target_pos s s.
Proof. reflexivity. Qed.

Lemma same_target_pos_trans (s1 s2 s3 : state) :
  same_target_pos s1 s2 -> same_target_pos s2 s3 -> same_target_pos s1 s3.
Proof. unfold same_target_pos. congruence. Qed.

Lemma same_reference_pos_refl (s : state) : same_reference_pos s s.
Proof. reflexivity. Qed.

Lemma same_reference_pos_trans (s1 s2 s3 : state) :
  same_reference_pos s1 s2 -> same_reference_pos s2 s3 -> same_reference_pos s1 s3.
Proof. unfold same_reference_pos. congruence. Qed.

Lemma same_target_magnitude_refl (s : state) : same_target_magnitude s s.
Proof. reflexivity. Qed.

Lemma same_target_magnitude_trans (s1 s2 s3 : state) :
  same_target_magnitude s1 s2 -> same_target_magnitude s2 s3 ->
  same_target_magnitude s1 s3.
Proof. unfold same_target_magnitude. congruence. Qed.

(** Unfolds the four methods down to their assignments. *)
Ltac unfold_methods :=
  unfold set_target, set_reference, CircularAperture, is_list_of_len_2_first,
    read_apertures, read_frame, read_target_flux, read_reference_flux,
    append_reference_flux, append_to, differential_magnitude, single_frame,
    multi_frame, frame_values, average, write_reference_magnitude,
    reference_at, target_at, getitem, setitem.

Lemma run_keeps_target_pos (E : env) (c : method_call) :
  is_set_target c = false -> keeps same_target_pos (run E c).
Proof.
  pose proof same_target_pos_refl as Hr. pose proof same_target_pos_trans as Ht.
  destruct c as [p r n | p r n | | m]; simpl; [discriminate | | |]; intros _.
  - unfold_methods. keeps_body Hr Ht; try reflexivity.
    unfold new_lists. intros s. reflexivity.
  - unfold_methods. keeps_body Hr Ht; reflexivity.
  - unfold differential_magnitude. keeps_body Hr Ht; try reflexivity.
    all: unfold_methods; keeps_body Hr Ht; reflexivity.
Qed.

Lemma run_keeps_reference_pos (E : env) (c : method_call) :
  is_set_reference c = false -> keeps same_reference_pos (run E c).
Proof.
  pose proof same_reference_pos_refl as Hr. pose proof same_reference_pos_trans as Ht.
  destruct c as [p r n | p r n | | m]; simpl; [| discriminate | |]; intros _.
  - unfold_methods. keeps_body Hr Ht; reflexivity.
  - unfold_methods. keeps_body Hr Ht; reflexivity.
  - unfold differential_magnitude. keeps_body Hr Ht; try reflexivity.
    all: unfold_methods; keeps_body Hr Ht; reflexivity.
Qed.

Lemma run_keeps_target_magnitude (E : env) (c : method_call) :
  is_differential_magnitude c = false -> keeps same_target_magnitude (run E c).
Proof.
  pose proof same_target_magnitude_refl as Hr.
  pose proof same_target_magnitude_trans as Ht.
  destruct c as [p r n | p r n | | m]; simpl; [| | | discriminate]; intros _.
  - unfold_methods. keeps_body Hr Ht; reflexivity.
  - unfold_methods. keeps_body Hr Ht; try reflexivity.
    unfold new_lists. intros s. reflexivity.
  - unfold_methods. keeps_body Hr Ht; reflexivity.
Qed.

(** A relation that the chosen calls keep is kept by a sequence of
    them. *)
Lemma keeps_run_all_where (Rel : state -> state -> Prop) (E : env)
    (ok : method_call -> bool) :
  (forall s, Rel s s) ->
  (forall s1 s2 s3, Rel s1 s2 -> Rel s2 s3 -> Rel s1 s3) ->
  (forall c, ok c = true -> keeps Rel (run E c)) ->
  forall cs s, forallb ok cs = true -> Rel s (run_all E cs s).
Proof.
  intros Hrefl Htrans Hrun cs. unfold run_all.
  induction cs as [| c cs IH]; intros s Hcs; simpl in *.
  - apply Hrefl.
  - apply andb_prop in Hcs as [Hc Hcs].
    eapply Htrans; [apply (Hrun c Hc s) | now apply IH].
Qed.

(** X9.  The position of a role is assigned by the method of that role
    only.  On an instance whose target (respectively reference) position
    is unset, whatever calls other than [set_target] (respectively
    [set_reference]) are made, [read_apertures] prints the notice of line
    119 and returns, and changes nothing. *)
Theorem unconfigured_role_blocks_extraction (E : env) (s : state)
    (cs : list method_call) :
  (target_pos (self s) = None
   /\ forallb (fun c => negb (is_set_target c)) cs = true)
  \/ (reference_pos (self s) = None
      /\ forallb (fun c => negb (is_set_reference c)) cs = true) ->
  read_apertures E (run_all E cs s)
  = (run_all E cs s, [MsgNotConfigured], Ok tt)
  /\ signalled (read_apertures E (run_all E cs s)) = Some ConfigurationError.
Proof.
  intros Hrole.
  assert (Hnone : is_None (target_pos (self (run_all E cs s)))
                  || is_None (reference_pos (self (run_all E cs s))) = true).
  { destruct Hrole as [[Hpos Hcs] | [Hpos Hcs]].
    - pose proof (keeps_run_all_where same_target_pos E
                    (fun c => negb (is_set_target c))
                    same_target_pos_refl same_target_pos_trans) as Hkeep.
      rewrite (Hkeep (fun c Hc => run_keeps_target_pos E c
                                    (proj1 (negb_true_iff _) Hc)) cs s Hcs).
      now rewrite Hpos.
    - pose proof (keeps_run_all_where same_reference_pos E
                    (fun c => negb (is_set_reference c))
                    same_reference_pos_refl same_reference_pos_trans) as Hkeep.
      rewrite (Hkeep (fun c Hc => run_keeps_reference_pos E c
                                    (proj1 (negb_true_iff _) Hc)) cs s Hcs).
      rewrite Hpos. apply orb_true_r. }
  assert (Hrun : read_apertures E (run_all E cs s)
                 = (run_all E cs s, [MsgNotConfigured], Ok tt)).
  { unfold read_apertures. rewrite !bind_gets, Hnone. reflexivity. }
  rewrite Hrun. split; reflexivity.
Qed.

Lemma unconfigured_role_blocks_extraction_witness :
  let s := run_all one_frame_env
             [target_100; ReadApertures; DifferentialMagnitude (PStr "average");
              target_100] one_frame in
  read_apertures one_frame_env s = (s, [MsgNotConfigured], Ok tt).
Proof.
  intros s.
  apply (unconfigured_role_blocks_extraction one_frame_env one_frame
           [target_100; ReadApertures; DifferentialMagnitude (PStr "average");
            target_100]).
  right. split; reflexivity.
Defined.

(** X21.  The target magnitude series is assigned by
    [differential_magnitude] only: it stays as it is, stale, through any
    sequence of configuration and extraction calls. *)
Theorem target_magnitude_survives_reconfiguration (E : env) (s : state)
    (cs : list method_call) :
  forallb (fun c => negb (is_differential_magnitude c)) cs = true ->
  target_magnitude (self (run_all E cs s)) = target_magnitude (self s).
Proof.
  intros Hcs.
  apply (keeps_run_all_where same_target_magnitude E
           (fun c => negb (is_differential_magnitude c))
           same_target_magnitude_refl same_target_magnitude_trans); [| exact Hcs].
  intros c Hc. apply run_keeps_target_magnitude. now apply negb_true_iff.
Qed.

Lemma target_magnitude_survives_reconfiguration_witness :
  let E := one_frame_env in
  let s := run_all E [target_100; reference_50; ReadApertures;
                      DifferentialMagnitude (PStr "average")] one_frame in
  target_magnitude (self s) = Some [diff_mag 100 50]
  /\ target_magnitude
       (self (run_all E [SetTarget (xy 7 0) radius8 PNone; reference_50;
                         ReadApertures] s))
     = Some [diff_mag 100 50].
Proof.
  intros E s.
  assert (Hs : target_magnitude (self s) = Some [diff_mag 100 50]) by evaluate.
  split; [exact Hs |].
  rewrite (target_magnitude_survives_reconfiguration E s
             [SetTarget (xy 7 0) radius8 PNone; reference_50; ReadApertures] eq_refl).
  exact Hs.
Defined.

(** * Further properties of the extraction *)

(** Identifies two values of one attribute. *)
Ltac same_attribute :=
  repeat
    match goal with
    | H : ?x = Some ?a, H' : ?x = Some ?b |- _ =>
        rewrite H in H'; injection H' as <-
    | H : ?x = inr ?a, H' : ?x = inr ?b |- _ =>
        rewrite H in H'; injection H' as <-
    end.

Lemma read_target_flux_value (E : env) (i : hdu) (ta : aperture) s s' o :
  target_aperture (self s) = Some ta ->
  read_target_flux E i s = (s', o, Ok tt) ->
  exists v, photometry_of E ta i v
            /\ s' = set_self (with_target (target (self s) ++ [v])) s.
Proof.
  intros Hta. unfold read_target_flux. intros H. invert_ok. same_attribute.
  eexists. split; [| reflexivity]. eexists. split; eassumption.
Qed.

Lemma read_reference_flux_single (E : env) (i : hdu) (ra : aperture) s s' o :
  number_of_references (self s) = Some 1 ->
  reference_aperture (self s) = Some ra ->
  read_reference_flux E i s = (s', o, Ok tt) ->
  exists w, photometry_of E ra i w
            /\ s' = set_self (with_reference (reference (self s) ++ [EFloat w])) s.
Proof.
  intros Hn Hra. unfold read_reference_flux. intros H. invert_ok. same_attribute.
  cbn [Nat.eqb] in H. invert_ok.
  eexists. split; [| reflexivity]. eexists. split; eassumption.
Qed.

(** X10.  With one reference, an extraction that returns leaves, for
    every frame of the catalog and in the order of the catalog, the sum
    that the photometry reports for the target aperture in the target
    flux and the sum that it reports for the reference aperture in the
    reference flux; both series have one value per frame. *)
Theorem single_extraction_aligned (E : env) (s s1 : state) (ta ra : aperture) :
  number_of_references (self s) = Some 1 ->
  target_aperture (self s) = Some ta ->
  reference_aperture (self s) = Some ra ->
  reference (self s) = [] ->
  read_apertures E s = (s1, [], Ok tt) ->
  Forall2 (photometry_of E ta) (hdu_list (self s)) (target (self s1))
  /\ length (target (self s1)) = frameCount s1
  /\ exists rs,
       reference (self s1) = map EFloat rs
       /\ Forall2 (photometry_of E ra) (hdu_list (self s)) rs
       /\ length rs = frameCount s1.
Proof.
  intros Hn Hta Hra Href (_ & _ & Htarget & o & Hloop)%read_apertures_silent.
  pose (I := fun (pre : list hdu) (_ : unit) (s' : state) =>
               number_of_references (self s') = Some 1
               /\ target_aperture (self s') = Some ta
               /\ reference_aperture (self s') = Some ra
               /\ hdu_list (self s') = hdu_list (self s)
               /\ Forall2 (photometry_of E ta) pre (target (self s'))
               /\ exists rs, reference (self s') = map EFloat rs
                             /\ Forall2 (photometry_of E ra) pre rs).
  assert (HI : I ([] ++ hdu_list (self s)) tt s1).
  { eapply (for_each_ok_inv I) with (acc := tt); [| | exact Hloop].
    - intros pre i [] sa sb ob [] (Hn' & Hta' & Hra' & Hhdus & Hts & rs & Hrs & Hrsp) Hbody.
      unfold read_frame in Hbody.
      apply bind_ok in Hbody as (sm & om & [] & om' & Ht & Hr & _).
      apply (read_target_flux_value E i ta) in Ht as (v & Hv & ->); [| exact Hta'].
      apply (read_reference_flux_single E i ra) in Hr as (w & Hw & ->);
        [| exact Hn' | exact Hra'].
      unfold I. cbn. repeat (split; [assumption |]). split.
      + apply Forall2_app; [exact Hts | now repeat constructor].
      + exists (rs ++ [w]). rewrite Hrs, map_app. split; [reflexivity |].
        apply Forall2_app; [exact Hrsp | now repeat constructor].
    - unfold I. rewrite Htarget, Href. repeat (split; [assumption || reflexivity |]).
      split; [constructor |]. exists []. split; [reflexivity | constructor]. }
  destruct HI as (_ & _ & _ & Hhdus & Hts & rs & Hrs & Hrsp). cbn [app] in Hts, Hrsp.
  unfold frameCount. rewrite Hhdus.
  split; [exact Hts |]. split; [symmetry; exact (Forall2_length _ _ _ Hts) |].
  exists rs. split; [exact Hrs |]. split; [exact Hrsp |].
  symmetry. exact (Forall2_length _ _ _ Hrsp).
Qed.

Lemma single_extraction_aligned_witness :
  let E := one_frame_env in
  let s := run_all E [target_100; reference_50] one_frame in
  exists s1,
    read_apertures E s = (s1, [], Ok tt)
    /\ length (target (self s1)) = frameCount s1
    /\ exists rs, reference (self s1) = map EFloat rs /\ length rs = frameCount s1.
Proof.
  intros E s. eexists.
  assert (Hrun : read_apertures E s = (_, [], Ok tt)) by evaluate.
  split; [exact Hrun |].
  destruct (single_extraction_aligned E s _
              (mkAperture (xy 100 0) radius8) (mkAperture (xy 50 0) radius8)
              eq_refl eq_refl eq_refl eq_refl Hrun)
    as (_ & Hlen & rs & Hrs & _ & Hrslen).
  split; [exact Hlen |]. exists rs. split; assumption.
Defined.

(** X11.  With several references, an extraction that starts from the
    reference set as [set_reference] leaves it and returns keeps the list
    objects of the references and leaves one value per frame in the
    target flux and in the flux of every reference. *)
Theorem multi_extraction_lengths (E : env) (locs : list nat) (s0 s1 : state) :
  configured_references s0 locs ->
  1 < length locs ->
  read_apertures E s0 = (s1, [], Ok tt) ->
  frameCount s1 = frameCount s0
  /\ reference (self s1) = reference (self s0)
  /\ length (target (self s1)) = frameCount s1
  /\ forall r l, locs !! r = Some l ->
       exists row, heap s1 !! l = Some row /\ length row = frameCount s1.
Proof.
  intros Hconf HR Hrun.
  destruct (read_apertures_multi E locs s0 s1 Hconf HR Hrun)
    as (_ & Href & Hhdus & Hlen & F & HF & Hrows).
  destruct Hconf as (_ & Href0 & _ & _).
  split; [unfold frameCount; now rewrite Hhdus |].
  split; [congruence |]. split; [exact Hlen |].
  intros r l Hl. destruct (holds_lookup _ _ _ _ _ HF Hl) as (row & Hrow & Hh).
  exists row. split; [exact Hh |].
  rewrite Forall_lookup in Hrows. exact (Hrows r row Hrow).
Qed.

Lemma multi_extraction_lengths_witness :
  let s0 := run_all one_frame_env [target_100; references_50_150] one_frame in
  exists s1,
    read_apertures one_frame_env s0 = (s1, [], Ok tt)
    /\ length (target (self s1)) = frameCount s1
    /\ exists row, heap s1 !! 1 = Some row /\ length row = frameCount s1.
Proof.
  intros s0. eexists.
  assert (Hrun : read_apertures one_frame_env s0 = (_, [], Ok tt)) by evaluate.
  split; [exact Hrun |].
  assert (Hconf : configured_references s0 [0; 1]).
  { split; [evaluate |]. split; [evaluate |]. split; [apply (NoDup_seq 0 2) |].
    intros l [<- | [<- | []]]; evaluate. }
  destruct (multi_extraction_lengths one_frame_env [0; 1] s0 _ Hconf
              ltac:(cbn; lia) Hrun) as (_ & _ & Hlen & Hrows).
  split; [exact Hlen |]. exact (Hrows 1 1 eq_refl).
Defined.

Lemma bind_call {A B} (c : exn + A) (k : A -> M B) s a :
  c = inr a -> bind (call c) k s = k a s.
Proof. intros ->. now apply bind_step. Qed.

Lemma bind_call_raises {A B} (c : exn + A) (k : A -> M B) s e :
  c = inl e -> bind (call c) k s = (s, [], Exc e).
Proof. intros ->. reflexivity. Qed.

(** X12.  The extraction is not atomic.  With one reference and at least
    two frames, if the photometry succeeds on the first frame and raises
    on the target aperture of the second, [read_apertures] raises that
    exception and leaves the flux of the first frame in both series; the
    target flux being no longer empty, the next call is answered by the
    notice of line 123 and extracts nothing. *)
Theorem failed_extraction_leaves_partial_flux (E : env) (s : state)
    (ta ra : aperture) (h1 h2 : hdu) (hdus : list hdu)
    (v w : R) (tv tw : list R) (e : exn) :
  is_None (target_pos (self s)) = false ->
  is_None (reference_pos (self s)) = false ->
  target (self s) = [] ->
  target_aperture (self s) = Some ta ->
  reference_aperture (self s) = Some ra ->
  number_of_references (self s) = Some 1 ->
  hdu_list (self s) = h1 :: h2 :: hdus ->
  aperture_photometry E h1 ta = inr (v :: tv) ->
  aperture_photometry E h1 ra = inr (w :: tw) ->
  aperture_photometry E h2 ta = inl e ->
  exists s',
    read_apertures E s = (s', [], Exc e)
    /\ target (self s') = [v]
    /\ reference (self s') = reference (self s) ++ [EFloat w]
    /\ read_apertures E s' = (s', [MsgAlreadyPerformed], Ok tt).
Proof.
  intros Htp Hrp Ht Hta Hra Hn Hhdus Hv Hw He.
  set (s' := set_self (with_reference (reference (self s) ++ [EFloat w]))
               (set_self (with_target [v]) s)).
  assert (Hfirst : read_frame E h1 s = (s', [], Ok tt)).
  { unfold read_frame, read_target_flux.
    rewrite !bind_assoc, (bind_getattr _ _ _ _ Hta).
    rewrite !bind_assoc, (bind_call _ _ _ _ Hv).
    cbn [lookup list_lookup].
    rewrite !bind_assoc, (bind_orraise _ _ _ _ v eq_refl).
    rewrite bind_modify.
    replace (set_self (fun o => with_target (target o ++ [v]) o) s)
      with (set_self (with_target [v]) s)
      by (unfold set_self; now rewrite Ht).
    unfold read_reference_flux.
    rewrite (bind_getattr _ _ _ ra) by exact Hra.
    rewrite (bind_call _ _ _ _ Hw).
    rewrite (bind_getattr _ _ _ 1) by exact Hn.
    cbn [Nat.eqb lookup list_lookup].
    rewrite (bind_orraise _ _ _ _ w eq_refl). reflexivity. }
  assert (Hsecond : read_frame E h2 s' = (s', [], Exc e)).
  { unfold read_frame, read_target_flux.
    rewrite !bind_assoc, (bind_getattr _ _ _ ta) by exact Hta.
    now rewrite !bind_assoc, (bind_call_raises _ _ _ _ He). }
  exists s'. split; [| split; [reflexivity | split; [reflexivity |]]].
  - unfold read_apertures. rewrite !bind_gets, Htp, Hrp. cbn [orb].
    rewrite bind_gets, Ht, bind_gets, Hhdus. cbn [for_each].
    rewrite (bind_step _ _ _ _ _ Hfirst). unfold bind at 1. now rewrite Hsecond.
  - unfold read_apertures. rewrite !bind_gets.
    change (target_pos (self s')) with (target_pos (self s)).
    change (reference_pos (self s')) with (reference_pos (self s)).
    rewrite Htp, Hrp. reflexivity.
Qed.

Lemma failed_extraction_leaves_partial_flux_witness :
  let E := two_frame_env in
  let s := run_all E [target_100; reference_50] two_frame in
  exists s',
    read_apertures E s = (s', [], Exc LibraryError)
    /\ target (self s') = [100%R]
    /\ reference (self s') = [EFloat 50]
    /\ read_apertures E s' = (s', [MsgAlreadyPerformed], Ok tt).
Proof.
  intros E s.
  destruct (failed_extraction_leaves_partial_flux E s
              (mkAperture (xy 100 0) radius8) (mkAperture (xy 50 0) radius8)
              frame_sky frame_empty [] 100%R 50%R [] [] LibraryError)
    as (s' & Hrun & Ht & Hr & Hnext); try reflexivity.
  exists s'. split; [exact Hrun |]. split; [exact Ht |]. split; [exact Hr | exact Hnext].
Defined.

(** * Further properties of the magnitudes *)

Lemma bind_getattr_unset {A B} (f : Lightcurve -> option A) (k : A -> M B) s :
  f (self s) = None -> bind (getattr f) k s = (s, [], Exc AttributeError).
Proof.
  intros H. unfold getattr. rewrite bind_assoc, bind_gets, H. reflexivity.
Qed.

(** X13.  [differential_magnitude] on an instance for which
    [set_reference] has never gone as far as the reference count raises
    [AttributeError] at line 153 and assigns nothing. *)
Theorem compute_before_configuration_raises (s : state) :
  number_of_references (self s) = None ->
  differential_magnitude (PStr "average") s = (s, [], Exc AttributeError).
Proof.
  intros Hn. unfold differential_magnitude.
  cbn [is_average String.eqb Ascii.eqb Bool.eqb].
  rewrite !bind_assoc, bind_gets, !bind_assoc, bind_gets, !bind_assoc.
  now rewrite (bind_getattr_unset _ _ _ Hn).
Qed.

Lemma compute_before_configuration_raises_witness :
  init one_frame_env "/d/*.fit" = inr one_frame
  /\ differential_magnitude (PStr "average") one_frame
     = (one_frame, [], Exc AttributeError).
Proof.
  split; [reflexivity |]. now apply compute_before_configuration_raises.
Defined.

(** The computation with one reference, given what its loop returns. *)
Lemma differential_magnitude_single_run (s : state) (tm : list R) (rm : list elem) :
  number_of_references (self s) = Some 1 ->
  for_each (seq 0 (length (target (self s)))) single_frame
    (target (self s), reference (self s)) s
  = (s, [], Ok (tm, rm)) ->
  differential_magnitude (PStr "average") s
  = (set_self (with_reference_magnitude (Some rm))
       (set_self (with_target_magnitude (Some tm)) s),
     [MsgSingleReference], Ok tt).
Proof.
  intros Hn Hloop. unfold differential_magnitude.
  cbn [is_average String.eqb Ascii.eqb Bool.eqb].
  rewrite (bind_eq _ _ s s [MsgSingleReference] (Some tm, Some rm)).
  - unfold local. rewrite (bind_orraise _ _ _ _ tm eq_refl), bind_modify.
    rewrite (bind_orraise _ _ _ _ rm eq_refl). reflexivity.
  - rewrite !bind_gets, (bind_getattr _ _ _ 1 Hn). cbn [Nat.eqb].
    rewrite bind_assoc, bind_print. cbv beta.
    rewrite bind_assoc, bind_gets, (bind_step _ _ _ _ _ Hloop).
    rewrite (bind_getattr _ _ _ 1 Hn). reflexivity.
Qed.

(** The computation with one reference, when its loop raises. *)
Lemma differential_magnitude_single_raises (s : state) (e : exn) :
  number_of_references (self s) = Some 1 ->
  for_each (seq 0 (length (target (self s)))) single_frame
    (target (self s), reference (self s)) s
  = (s, [], Exc e) ->
  differential_magnitude (PStr "average") s = (s, [MsgSingleReference], Exc e).
Proof.
  intros Hn Hloop. unfold differential_magnitude.
  cbn [is_average String.eqb Ascii.eqb Bool.eqb].
  assert (Hlocals :
    forall K : list R * list elem -> M (option (list R) * option (list elem)),
      bind (bind (print MsgSingleReference)
              (fun _ => bind (gets (fun s0 => length (target (self s0))))
                          (fun len => for_each (seq 0 len) single_frame
                                        (target (self s), reference (self s)))))
        K s
      = (s, [MsgSingleReference], Exc e)).
  { intros K. rewrite bind_assoc, bind_print. cbv beta.
    rewrite bind_assoc, bind_gets. unfold bind at 1. now rewrite Hloop. }
  unfold bind at 1.
  rewrite !bind_gets, (bind_getattr _ _ _ 1 Hn). cbn [Nat.eqb].
  now rewrite Hlocals.
Qed.

(** X14.  With one reference configured and nothing extracted,
    [differential_magnitude] does not refuse: it prints the notice of
    line 154 and returns with an empty target magnitude series and the
    reference series as it is. *)
Theorem compute_before_extraction_is_empty (s : state) :
  number_of_references (self s) = Some 1 ->
  target (self s) = [] ->
  differential_magnitude (PStr "average") s
  = (set_self (with_reference_magnitude (Some (reference (self s))))
       (set_self (with_target_magnitude (Some [])) s),
     [MsgSingleReference], Ok tt).
Proof.
  intros Hn Ht. apply differential_magnitude_single_run; [exact Hn |].
  rewrite Ht. reflexivity.
Qed.

Lemma compute_before_extraction_is_empty_witness :
  let s := run_all one_frame_env [target_100; reference_50] one_frame in
  exists s',
    differential_magnitude (PStr "average") s = (s', [MsgSingleReference], Ok tt)
    /\ target_magnitude (self s') = Some []
    /\ reference_magnitude (self s') = Some [].
Proof.
  intros s. eexists.
  rewrite (compute_before_extraction_is_empty s eq_refl eq_refl).
  split; [reflexivity |]. split; reflexivity.
Defined.

(** X22.  After an extraction, [set_reference] alone empties the
    reference flux and keeps the target flux; with one reference,
    [differential_magnitude] then raises [IndexError] at the first frame
    and assigns no magnitude. *)
Theorem compute_after_set_reference_alone_raises (s : state) (t : R) (ts : list R) :
  number_of_references (self s) = Some 1 ->
  target (self s) = t :: ts ->
  reference (self s) = [] ->
  differential_magnitude (PStr "average") s
  = (s, [MsgSingleReference], Exc IndexError).
Proof.
  intros Hn Ht Hr. apply differential_magnitude_single_raises; [exact Hn |].
  rewrite Ht, Hr. cbn [length seq for_each].
  unfold bind at 1. unfold single_frame, target_at, reference_at.
  rewrite bind_assoc, bind_gets, Ht. cbn [lookup list_lookup].
  rewrite (bind_orraise _ _ _ _ t eq_refl), bind_assoc, bind_gets, Hr.
  reflexivity.
Qed.

Lemma compute_after_set_reference_alone_raises_witness :
  let E := one_frame_env in
  let s := run_all E [target_100; reference_50; ReadApertures; reference_50]
             one_frame in
  target (self s) = [100%R]
  /\ differential_magnitude (PStr "average") s
     = (s, [MsgSingleReference], Exc IndexError).
Proof.
  intros E s. split; [evaluate |].
  apply (compute_after_set_reference_alone_raises s 100%R []); evaluate.
Defined.

(** X20.  A reference given as a list of one position is counted as one
    reference but stored as a list of one empty list object.  With that
    object at the head of the reference series and a target flux that is
    not empty, [differential_magnitude] raises [TypeError] at the first
    frame and assigns no magnitude. *)
Theorem single_position_list_breaks_compute (E : env) (s0 : state)
    (first radius name : pyobj) :
  CircularAperture_raises E (PList [first]) radius = None ->
  py_len first = Some 2 ->
  (exists s1,
     set_reference E (PList [first]) radius name s0 = (s1, [], Ok tt)
     /\ number_of_references (self s1) = Some 1
     /\ reference (self s1) = [ERef (length (heap s0))])
  /\ forall s l rest t ts,
       number_of_references (self s) = Some 1 ->
       reference (self s) = ERef l :: rest ->
       target (self s) = t :: ts ->
       differential_magnitude (PStr "average") s
       = (s, [MsgSingleReference], Exc TypeError).
Proof.
  intros Hap Hlen. split.
  - destruct (set_reference_list_run E s0 first [] radius name Hap Hlen)
      as (s1 & Hrun & Hn & Href & _).
    exists s1. auto.
  - intros s l rest t ts Hn Hr Ht.
    apply differential_magnitude_single_raises; [exact Hn |].
    rewrite Ht, Hr. cbn [length seq for_each].
    unfold bind at 1. unfold single_frame, target_at, reference_at.
    rewrite bind_assoc, bind_gets, Ht. cbn [lookup list_lookup].
    rewrite (bind_orraise _ _ _ _ t eq_refl), bind_assoc, bind_gets, Hr.
    reflexivity.
Qed.

Lemma single_position_list_breaks_compute_witness :
  let E := one_frame_env in
  let s := run_all E [target_100; SetReference (PList [xy 50 0]) radius8 PNone;
                      ReadApertures] one_frame in
  reference (self s) = [ERef 0; EFloat 50]
  /\ differential_magnitude (PStr "average") s
     = (s, [MsgSingleReference], Exc TypeError).
Proof.
  intros E s. split; [evaluate |].
  destruct (single_position_list_breaks_compute E one_frame (xy 50 0) radius8 PNone
              eq_refl eq_refl) as [_ Hraise].
  apply (Hraise s 0 [EFloat 50] 100%R []); evaluate.
Defined.

(** A frame of the single-reference loop reads the target and the
    reference flux and nothing else of the state. *)
Lemma single_frame_reads_flux (k : nat) (acc r : list R * list elem) s s1 o s' :
  target (self s') = target (self s) ->
  reference (self s') = reference (self s) ->
  single_frame k acc s = (s1, o, Ok r) ->
  s1 = s /\ o = [] /\ single_frame k acc s' = (s', [], Ok r).
Proof.
  intros Ht Hr. unfold single_frame, target_at, reference_at.
  destruct acc as [td rd]. intros H. invert_ok.
  destruct a0 as [x | l]; [| discriminate H]. invert_ok.
  split; [reflexivity |]. split; [reflexivity |].
  rewrite bind_assoc, bind_gets, Ht, (bind_orraise _ _ _ _ _ Hstep).
  rewrite bind_assoc, bind_gets, Hr, (bind_orraise _ _ _ _ _ Hstep0).
  reflexivity.
Qed.

Lemma single_loop_reads_flux (xs : list nat) :
  forall (acc r : list R * list elem) s s',
    target (self s') = target (self s) ->
    reference (self s') = reference (self s) ->
    for_each xs single_frame acc s = (s, [], Ok r) ->
    for_each xs single_frame acc s' = (s', [], Ok r).
Proof.
  induction xs as [| k xs IH]; intros acc r s s' Ht Hr; simpl.
  - intros [= <-]. reflexivity.
  - intros (s1 & o1 & a & o2 & Hk & Hrest & Hout)%bind_ok.
    destruct (single_frame_reads_flux k acc a s s1 o1 s' Ht Hr Hk) as (-> & -> & Hk').
    cbn [app] in Hout. subst o2.
    rewrite (bind_step _ _ _ _ _ Hk'). now apply (IH a r s s').
Qed.

(** X15.  With one reference, [differential_magnitude] leaves the target
    flux, the reference flux and the store as they are, and a second call
    returns the same magnitudes: it changes nothing any more. *)
Theorem single_reference_compute_is_repeatable (s : state) (rs : list R) :
  number_of_references (self s) = Some 1 ->
  reference (self s) = map EFloat rs ->
  length (target (self s)) <= length rs ->
  exists s',
    differential_magnitude (PStr "average") s = (s', [MsgSingleReference], Ok tt)
    /\ target (self s') = target (self s)
    /\ reference (self s') = reference (self s)
    /\ heap s' = heap s
    /\ differential_magnitude (PStr "average") s' = (s', [MsgSingleReference], Ok tt).
Proof.
  intros Hn Hrs Hlen.
  destruct (single_reference_loop s (target (self s)) rs eq_refl Hrs Hlen
              (target (self s)) (map EFloat rs))
    as (tm & rm & Hloop & _); [reflexivity | now rewrite length_map |].
  rewrite <- Hrs in Hloop.
  set (s' := set_self (with_reference_magnitude (Some rm))
               (set_self (with_target_magnitude (Some tm)) s)).
  exists s'. split; [now apply differential_magnitude_single_run |].
  split; [reflexivity |]. split; [reflexivity |]. split; [reflexivity |].
  rewrite (differential_magnitude_single_run s' tm rm); [| exact Hn |].
  - reflexivity.
  - now apply (single_loop_reads_flux _ _ _ s s').
Qed.

Lemma single_reference_compute_is_repeatable_witness :
  let s := run_all one_frame_env [target_100; reference_50; ReadApertures] one_frame in
  exists s',
    differential_magnitude (PStr "average") s = (s', [MsgSingleReference], Ok tt)
    /\ target (self s') = [100%R]
    /\ reference (self s') = [EFloat 50]
    /\ differential_magnitude (PStr "average") s' = (s', [MsgSingleReference], Ok tt).
Proof.
  intros s.
  destruct (single_reference_compute_is_repeatable s [50%R])
    as (s' & Hrun & Ht & Hr & _ & Hagain).
  - evaluate.
  - evaluate.
  - cbn. lia.
  - exists s'. split; [exact Hrun |]. split; [rewrite Ht; evaluate |].
    split; [rewrite Hr; evaluate | exact Hagain].
Defined.

(** The computation with several references, on a state whose
    list objects [locs] hold the flux series [F]: the loop has rewritten
    the rows in place. *)
Lemma differential_magnitude_multi_run (s : state) (locs : list nat)
    (F : list (list R)) :
  number_of_references (self s) = Some (length locs) ->
  1 < length locs ->
  reference (self s) = map ERef locs ->
  NoDup locs ->
  holds (heap s) locs F ->
  Forall (fun row => length row = length (target (self s))) F ->
  exists s',
    differential_magnitude (PStr "average") s
    = (set_self (with_reference_magnitude (Some (map ERef locs)))
         (set_self (with_target_magnitude
                      (Some (magnitudes_upto F (length (target (self s)))
                               (target (self s))))) s'),
       [], Ok tt)
    /\ self s' = self s
    /\ holds (heap s') locs
         (map (magnitudes_upto F (length (target (self s)))) F).
Proof.
  intros Hn HR Href Hnodup HF Hrows.
  destruct (multi_reference_loop s locs F Href Hnodup) as (s' & Hloop & Hself & HM);
    [lia | exact Hrows | exact HF |].
  exists s'. split; [| split; assumption].
  unfold differential_magnitude. cbn [is_average String.eqb Ascii.eqb Bool.eqb].
  rewrite (bind_eq _ _ s s' []
             (Some (magnitudes_upto F (length (target (self s))) (target (self s))),
              Some (map ERef locs))).
  - unfold local. cbn [fst snd].
    rewrite (bind_orraise _ _ _ _ _ eq_refl), bind_modify.
    rewrite (bind_orraise _ _ _ _ _ eq_refl). reflexivity.
  - rewrite !bind_gets, (bind_getattr _ _ _ _ Hn).
    destruct (Nat.eqb_spec (length locs) 1) as [? | _]; [lia |].
    rewrite bind_ret, (bind_getattr _ _ _ _ Hn).
    destruct (Nat.ltb_spec 1 (length locs)) as [_ | ?]; [| lia].
    cbn [fst snd]. rewrite bind_gets, Href.
    rewrite (bind_step _ _ _ _ _ Hloop). reflexivity.
Qed.

(** X16.  With several references, [differential_magnitude] writes the
    reference magnitudes into the list objects of the reference flux:
    when it returns, [self.reference_magnitude] and [self.reference] are
    lists of the same objects, and the object of every reference holds,
    for every frame, the magnitude of the flux it held before the call.
    The target flux is as before. *)
Theorem multi_reference_compute_shares_lists (s : state) (locs : list nat)
    (F : list (list R)) :
  number_of_references (self s) = Some (length locs) ->
  1 < length locs ->
  reference (self s) = map ERef locs ->
  NoDup locs ->
  holds (heap s) locs F ->
  Forall (fun row => length row = length (target (self s))) F ->
  exists s2,
    differential_magnitude (PStr "average") s = (s2, [], Ok tt)
    /\ target (self s2) = target (self s)
    /\ reference (self s2) = reference (self s)
    /\ reference_magnitude (self s2) = Some (reference (self s2))
    /\ forall r l flux, locs !! r = Some l -> F !! r = Some flux ->
         exists row,
           heap s2 !! l = Some row
           /\ length row = length flux
           /\ forall i, i < length flux ->
                nth i row 0%R
                = (-2.5 * log10 (nth i flux 0 / mean (frame_column F i)))%R.
Proof.
  intros Hn HR Href Hnodup HF Hrows.
  destruct (differential_magnitude_multi_run s locs F Hn HR Href Hnodup HF Hrows)
    as (s' & Hrun & Hself & HM).
  eexists. split; [exact Hrun |]. cbn [self set_self heap].
  rewrite Hself.
  split; [reflexivity |]. split; [reflexivity |].
  split; [cbn; now rewrite Href |].
  intros r l flux Hl Hflux.
  destruct (holds_lookup _ _ _ _ _ HM Hl) as (row & Hrow & Hh).
  rewrite list_lookup_fmap, Hflux in Hrow. injection Hrow as <-.
  eexists. split; [exact Hh |]. split; [apply magnitudes_upto_length |].
  intros i Hi. fold (frame_mean F i). rewrite <- frame_average_mean.
  apply magnitudes_upto_nth_magnitude; [| exact Hi].
  rewrite Forall_lookup in Hrows. rewrite <- (Hrows r flux Hflux). exact Hi.
Qed.

Lemma multi_reference_compute_shares_lists_witness :
  let s := run_all one_frame_env [target_100; references_50_150; ReadApertures]
             one_frame in
  exists s2 row,
    differential_magnitude (PStr "average") s = (s2, [], Ok tt)
    /\ reference_magnitude (self s2) = Some (reference (self s2))
    /\ heap s !! 0 = Some [50%R]
    /\ heap s2 !! 0 = Some row
    /\ nth 0 row 0%R
       = (-2.5 * log10 (50 / mean (frame_column [[50]; [150]] 0)))%R.
Proof.
  intros s.
  destruct (multi_reference_compute_shares_lists s [0; 1] [[50%R]; [150%R]])
    as (s2 & Hrun & _ & _ & Hshared & Hrows).
  - evaluate.
  - cbn. lia.
  - evaluate.
  - apply (NoDup_seq 0 2).
  - repeat constructor.
  - repeat constructor.
  - destruct (Hrows 0 0 [50%R] eq_refl eq_refl) as (row & Hrow & _ & Hvalue).
    exists s2, row. split; [exact Hrun |]. split; [exact Hshared |].
    split; [evaluate |]. split; [exact Hrow |].
    apply (Hvalue 0). cbn. lia.
Defined.
